(** * LangX front end: recording, transcription, translation and voice cloning

    A shallow embedding of the event handlers of the React front end
    ([App.jsx], [components/Recorder.jsx], [components/AudioPlayer.jsx],
    [components/Toast.jsx]) and the properties of its specification.

    Conventions of the embedding.
    - A handler is a closure created by one render: the state variables it
      reads ([translation], [targetLang], [clonedAudioUrl], ...) are the
      values of that render, passed here as the record [seen]; the setters
      ([setTranslation], ...) write the component's state, kept in the
      world; a ref ([lastRecordingRef.current]) is read from the world.
    - A handler runs to completion: the reply of the backend to each
      [axios.post] is an input of the handler (a [Backend]), and every
      user-visible or platform effect (toasts, HTTP requests, creation and
      revocation of object URLs) is recorded in the list of events the
      handler returns, in order.
    - [console.log] and [console.error] have no effect on any of this and
      are left out, except where evaluating their argument can throw. *)

From Stdlib Require Import QArith.
From stdpp Require Import base gmap sets list strings.
Local Open Scope string_scope.
Local Open Scope list_scope.

(** ** JavaScript values *)

(** [!!s] for a string: only the empty string is falsy. *)
Definition truthy (s : string) : bool := negb (String.eqb s "").

(** [!!v] for a value that is a string, [undefined] or [null]. *)
Definition truthy_opt (v : option string) : bool :=
  match v with
  | Some s => truthy s
  | None => false
  end.

(** [a || b] where [a] is a string. *)
Definition str_or (a b : string) : string := if truthy a then a else b.

(** [a || b] where [a] may be [undefined]. *)
Definition opt_or (a : option string) (b : string) : string :=
  if truthy_opt a then default b a else b.

(** The property key [obj[v]] computes from [v]. *)
Definition js_key (v : option string) : string := default "undefined" v.

Record Blob := { blob_size : N; blob_type : string }.

Record File := { file_name : string; file_type : string; file_size : N }.

(** What is appended to a [FormData] as a file part. *)
Inductive Audio :=
| AudioBlob (b : Blob)
| AudioFile (f : File).

(** [error.response] as [handleApiError] reads it. *)
Record ErrorResponse := { err_status : nat; err_data_error : option string }.

(** A thrown value: [new Error(message)], a [TypeError], a [DOMException]
    or an axios error (which carries [response] or [request]). *)
Record JsError := {
  name : string;
  message : string;
  response : option ErrorResponse;
  request : bool
}.

Definition new_Error (msg : string) : JsError :=
  {| name := "Error"; message := msg; response := None; request := false |}.

Definition new_TypeError (msg : string) : JsError :=
  {| name := "TypeError"; message := msg; response := None; request := false |}.

(** ** Effects: state, exceptions and an event log *)

Inductive Completion (A : Type) :=
| Normal (a : A)
| Thrown (e : JsError).
Arguments Normal {A} a.
Arguments Thrown {A} e.

Definition Eff (W Ev A : Type) : Type := W → Completion A * W * list Ev.

#[export] Instance Eff_ret {W Ev} : MRet (Eff W Ev) :=
  λ A a w, (Normal a, w, []).

#[export] Instance Eff_bind {W Ev} : MBind (Eff W Ev) :=
  λ A B k m w,
    match m w with
    | (Normal a, w1, l1) => let '(c, w2, l2) := k a w1 in (c, w2, l1 ++ l2)
    | (Thrown e, w1, l1) => (Thrown e, w1, l1)
    end.

Definition throw {W Ev A} (e : JsError) : Eff W Ev A :=
  λ w, (Thrown e, w, []).

Definition emit {W Ev} (e : Ev) : Eff W Ev unit :=
  λ w, (Normal tt, w, [e]).

Definition reads {W Ev A} (f : W → A) : Eff W Ev A :=
  λ w, (Normal (f w), w, []).

Definition modify {W Ev} (f : W → W) : Eff W Ev unit :=
  λ w, (Normal tt, f w, []).

(** [try { body } catch (error) { handler } finally { fin }] *)
Definition try_catch_finally {W Ev A}
    (body : Eff W Ev A) (handler : JsError → Eff W Ev A) (fin : Eff W Ev unit)
    : Eff W Ev A :=
  λ w,
    let '(c1, w1, l1) := body w in
    let '(c2, w2, l2) :=
      match c1 with
      | Normal a => (Normal a, w1, l1)
      | Thrown e => let '(c, w', l') := handler e w1 in (c, w', l1 ++ l')
      end in
    match fin w2 with
    | (Normal _, w3, l3) => (c2, w3, l2 ++ l3)
    | (Thrown e, w3, l3) => (Thrown e, w3, l2 ++ l3)
    end.

Definition completion_of {A W Ev} (o : Completion A * W * list Ev) := o.1.1.
Definition world_of {A W Ev} (o : Completion A * W * list Ev) := o.1.2.
Definition events_of {A W Ev} (o : Completion A * W * list Ev) := o.2.

(** ** Object URLs *)

Definition ObjectURL := nat.

(** The object URLs created and not yet revoked, and the next fresh one. *)
Record Browser := { live_urls : gset nat; next_url : nat }.

Module URL.

Definition createObjectURL (b : Browser) : ObjectURL * Browser :=
  (next_url b,
   {| live_urls := {[ next_url b ]} ∪ live_urls b; next_url := S (next_url b) |}).

Definition revokeObjectURL (u : ObjectURL) (b : Browser) : Browser :=
  {| live_urls := live_urls b ∖ {[ u ]}; next_url := next_url b |}.

End URL.

(** ** [App.jsx]: constants *)

Module LANGUAGES.
Definition codes : list string := ["es"; "fr"; "zh"].
End LANGUAGES.

Definition ALLOWED_AUDIO_TYPES : list string :=
  ["audio/wav"; "audio/mp3"; "audio/mpeg"].

Definition MAX_FILE_SIZE : N := 10 * 1024 * 1024.

Module API_ENDPOINTS.
Definition TRANSCRIBE := "/transcribe".
Definition TRANSLATE := "/translate_text".
Definition SYNTHESIZE := "/synthesize".
End API_ENDPOINTS.

Module ERROR_MESSAGES.
Definition NETWORK := "Network error. Please check your connection.".
Definition SERVER := "Server error. Please try again later.".
Module TRANSCRIPTION.
Definition NO_AUDIO := "No audio file provided.".
Definition INVALID_FORMAT := "Invalid audio format.".
Definition FAILED := "Failed to transcribe audio.".
End TRANSCRIPTION.
Module TRANSLATION.
Definition NO_TEXT := "No text to translate.".
Definition INVALID_LANG := "Invalid target language.".
Definition FAILED := "Failed to translate text.".
End TRANSLATION.
Module SYNTHESIS.
Definition NO_REFERENCE := "No reference audio provided.".
Definition NO_TEXT := "No text to synthesize.".
Definition FAILED := "Failed to synthesize voice.".
End SYNTHESIS.
End ERROR_MESSAGES.

(** The sentinel the backend returns when it has nothing to transcribe. *)
Definition NO_TRANSCRIPTION := "No transcription available".

(** ** [App.jsx]: state, requests and events *)

(** The [useState] variables of [App]. *)
Record AppState := {
  transcription : string;
  translation : string;
  isTranscribing : bool;
  isTranslating : bool;
  isCloning : bool;
  targetLang : option string;
  clonedAudioUrl : option ObjectURL;
  uploadedFile : option File
}.

(** The component between two handler runs: its state, the ref
    [lastRecordingRef], the object URLs it has created, and the number of
    toasts shown so far (the next toast id). *)
Record World := {
  state : AppState;
  lastRecordingRef : option Blob;
  browser : Browser;
  toasts : nat
}.

Inductive Request :=
| PostTranscribe (file : Audio) (filename : string)
| PostTranslate (text : string) (target_lang : option string)
| PostSynthesize (text : string) (reference_audio : Audio) (filename : string).

Definition endpoint (q : Request) : string :=
  match q with
  | PostTranscribe _ _ => API_ENDPOINTS.TRANSCRIBE
  | PostTranslate _ _ => API_ENDPOINTS.TRANSLATE
  | PostSynthesize _ _ _ => API_ENDPOINTS.SYNTHESIZE
  end.

(** The fields of a JSON reply the client looks at. *)
Record JsonData := {
  d_transcription : option string;
  d_text : option string;
  d_translations : option (gmap string string);
  d_error : option string
}.

Record Response (D : Type) := { status : nat; data : option D }.
Arguments status {D} _.
Arguments data {D} _.

(** How the promise of [axios.post] settles: axios rejects on a status
    outside 2xx, on a timeout and when no reply arrives. *)
Inductive Settled (D : Type) :=
| Resolved (reply : Response D)
| Rejected (e : JsError).
Arguments Resolved {D} reply.
Arguments Rejected {D} e.

(** The remote service, as seen by the client. *)
Record Backend := {
  transcribe : Audio → string → Settled JsonData;
  translate : string → option string → Settled JsonData;
  synthesize : string → Audio → string → Settled Blob
}.

Definition ToastId := nat.

Inductive Event :=
| ToastError (id : option ToastId) (msg : string)
| ToastSuccess (id : option ToastId) (msg : string)
| ToastLoading (id : ToastId) (msg : string)
| HttpPost (q : Request)
| CreatedObjectURL (u : ObjectURL)
| RevokedObjectURL (u : ObjectURL).

Abbreviation M := (Eff World Event).

(** ** [components/Toast.jsx]: [notify] *)

Module notify.

Definition success (msg : string) : M unit := emit (ToastSuccess None msg).

Definition error (msg : string) : M unit := emit (ToastError None msg).

Definition loading (msg : string) : M ToastId :=
  λ w,
    (Normal (toasts w),
     {| state := state w; lastRecordingRef := lastRecordingRef w;
        browser := browser w; toasts := S (toasts w) |},
     [ToastLoading (toasts w) msg]).

Definition update (toastId : ToastId) (msg : string) (type : string) : M unit :=
  if String.eqb type "error"
  then emit (ToastError (Some toastId) msg)
  else emit (ToastSuccess (Some toastId) msg).

End notify.

(** ** Platform calls lifted to the component *)

Module axios.

Definition post {D} (q : Request) (reply : Settled D) : M (Response D) :=
  emit (HttpPost q);;
  match reply with
  | Resolved r => mret r
  | Rejected e => throw e
  end.

End axios.

Definition with_browser (b : Browser) (w : World) : World :=
  {| state := state w; lastRecordingRef := lastRecordingRef w;
     browser := b; toasts := toasts w |}.

Definition createObjectURL : M ObjectURL :=
  λ w,
    let '(u, b) := URL.createObjectURL (browser w) in
    (Normal u, with_browser b w, [CreatedObjectURL u]).

Definition revokeObjectURL (u : ObjectURL) : M unit :=
  λ w,
    (Normal tt, with_browser (URL.revokeObjectURL u (browser w)) w,
     [RevokedObjectURL u]).

(** ** [App.jsx]: the state setters *)

Definition setState (f : AppState → AppState) : M unit :=
  modify (λ w,
    {| state := f (state w); lastRecordingRef := lastRecordingRef w;
       browser := browser w; toasts := toasts w |}).

Definition setTranscription (v : string) : M unit :=
  setState (λ s,
    {| transcription := v; translation := translation s;
       isTranscribing := isTranscribing s; isTranslating := isTranslating s;
       isCloning := isCloning s; targetLang := targetLang s;
       clonedAudioUrl := clonedAudioUrl s; uploadedFile := uploadedFile s |}).

Definition setTranslation (v : string) : M unit :=
  setState (λ s,
    {| transcription := transcription s; translation := v;
       isTranscribing := isTranscribing s; isTranslating := isTranslating s;
       isCloning := isCloning s; targetLang := targetLang s;
       clonedAudioUrl := clonedAudioUrl s; uploadedFile := uploadedFile s |}).

Definition setIsTranscribing (v : bool) : M unit :=
  setState (λ s,
    {| transcription := transcription s; translation := translation s;
       isTranscribing := v; isTranslating := isTranslating s;
       isCloning := isCloning s; targetLang := targetLang s;
       clonedAudioUrl := clonedAudioUrl s; uploadedFile := uploadedFile s |}).

Definition setIsTranslating (v : bool) : M unit :=
  setState (λ s,
    {| transcription := transcription s; translation := translation s;
       isTranscribing := isTranscribing s; isTranslating := v;
       isCloning := isCloning s; targetLang := targetLang s;
       clonedAudioUrl := clonedAudioUrl s; uploadedFile := uploadedFile s |}).

Definition setIsCloning (v : bool) : M unit :=
  setState (λ s,
    {| transcription := transcription s; translation := translation s;
       isTranscribing := isTranscribing s; isTranslating := isTranslating s;
       isCloning := v; targetLang := targetLang s;
       clonedAudioUrl := clonedAudioUrl s; uploadedFile := uploadedFile s |}).

Definition setTargetLang (v : option string) : M unit :=
  setState (λ s,
    {| transcription := transcription s; translation := translation s;
       isTranscribing := isTranscribing s; isTranslating := isTranslating s;
       isCloning := isCloning s; targetLang := v;
       clonedAudioUrl := clonedAudioUrl s; uploadedFile := uploadedFile s |}).

Definition setClonedAudioUrl (v : option ObjectURL) : M unit :=
  setState (λ s,
    {| transcription := transcription s; translation := translation s;
       isTranscribing := isTranscribing s; isTranslating := isTranslating s;
       isCloning := isCloning s; targetLang := targetLang s;
       clonedAudioUrl := v; uploadedFile := uploadedFile s |}).

Definition setUploadedFile (v : option File) : M unit :=
  setState (λ s,
    {| transcription := transcription s; translation := translation s;
       isTranscribing := isTranscribing s; isTranslating := isTranslating s;
       isCloning := isCloning s; targetLang := targetLang s;
       clonedAudioUrl := clonedAudioUrl s; uploadedFile := v |}).

(** [lastRecordingRef.current = v] *)
Definition set_lastRecordingRef (v : option Blob) : M unit :=
  modify (λ w,
    {| state := state w; lastRecordingRef := v;
       browser := browser w; toasts := toasts w |}).

(** The first render: [useState('')], [useState(false)], [useState('es')],
    [useState(null)], [useRef(null)]. *)
Definition initial_state : AppState :=
  {| transcription := ""; translation := "";
     isTranscribing := false; isTranslating := false; isCloning := false;
     targetLang := Some "es"; clonedAudioUrl := None; uploadedFile := None |}.

Definition initial_world : World :=
  {| state := initial_state; lastRecordingRef := None;
     browser := {| live_urls := ∅; next_url := 0 |}; toasts := 0 |}.

(** ** [App.jsx]: the handlers *)

Module App.
Section Handlers.

(** The backend, and the state values captured by the render that created
    the handlers. *)
Context (net : Backend) (seen : AppState).

Definition handleLanguageChange (event_target_value : option string) : M unit :=
  setTargetLang event_target_value;;
  (* Clear translation when language changes *)
  setTranslation "".

Definition handleApiError (error : JsError) (customMessage : string) : M unit :=
  match response error with
  | Some resp =>
      (* Server responded with error *)
      let serverMessage := opt_or (err_data_error resp) customMessage in
      notify.error (str_or serverMessage ERROR_MESSAGES.SERVER)
  | None =>
      if request error
      then (* Request made but no response *)
        notify.error ERROR_MESSAGES.NETWORK
      else (* Other errors *)
        notify.error (str_or customMessage ERROR_MESSAGES.SERVER)
  end.

(** [response.data?.translations?.[targetLang]], for what the reply holds
    under the key. (An object also answers to the names it inherits from
    [Object.prototype]: see [Object_prototype_keys] and [own_lookup].) *)
Definition translation_for (resp : Response JsonData) (lang : option string)
    : option string :=
  d ← data resp; m ← d_translations d; m !! js_key lang.

Definition translateText (text : string) : M unit :=
  if negb (truthy text) then
    notify.error ERROR_MESSAGES.TRANSLATION.NO_TEXT
  else if negb (truthy_opt (targetLang seen)) then
    notify.error ERROR_MESSAGES.TRANSLATION.INVALID_LANG
  else
    toastId ← notify.loading "Translating text...";
    try_catch_finally
      (setIsTranslating true;;
       resp ← axios.post (PostTranslate text (targetLang seen))
                         (translate net text (targetLang seen));
       if negb (truthy_opt (translation_for resp (targetLang seen))) then
         throw (new_Error ERROR_MESSAGES.TRANSLATION.FAILED)
       else
         setTranslation (default "" (translation_for resp (targetLang seen)));;
         notify.update toastId "Translation completed!" "success")
      (λ error,
         notify.update toastId
           (str_or (message error) ERROR_MESSAGES.TRANSLATION.FAILED) "error";;
         handleApiError error ERROR_MESSAGES.TRANSLATION.FAILED)
      (setIsTranslating false).

Definition handleRecordingComplete (audioBlob : option Blob) : M unit :=
  match audioBlob with
  | None => notify.error ERROR_MESSAGES.TRANSCRIPTION.NO_AUDIO
  | Some blob =>
      toastId ← notify.loading "Transcribing audio...";
      try_catch_finally
        (setIsTranscribing true;;
         setTranslation "";;
         setClonedAudioUrl None;;
         set_lastRecordingRef (Some blob);;
         resp ← axios.post (PostTranscribe (AudioBlob blob) "recording.webm")
                           (transcribe net (AudioBlob blob) "recording.webm");
         if negb (truthy_opt (data resp ≫= d_transcription)) then
           throw (new_Error ERROR_MESSAGES.TRANSCRIPTION.FAILED)
         else
           let transcribedText := default "" (data resp ≫= d_transcription) in
           setTranscription transcribedText;;
           notify.update toastId "Transcription complete!" "success";;
           (* Automatically trigger translation if transcription is successful *)
           if negb (String.eqb transcribedText NO_TRANSCRIPTION)
           then translateText transcribedText
           else mret tt)
        (λ error,
           handleApiError error ERROR_MESSAGES.TRANSCRIPTION.FAILED;;
           setTranscription "")
        (setIsTranscribing false)
  end.

Definition handleFileUpload (event_target_files : list File) : M unit :=
  match head event_target_files with
  | None => mret tt
  | Some file =>
      (* Validate file type *)
      if negb (bool_decide (file_type file ∈ ALLOWED_AUDIO_TYPES)) then
        notify.error ERROR_MESSAGES.TRANSCRIPTION.INVALID_FORMAT
      (* Validate file size *)
      else if (MAX_FILE_SIZE <? file_size file)%N then
        notify.error "File size must be less than 10MB."
      else
        setUploadedFile (Some file);;
        notify.success "Audio file uploaded successfully!";;
        (* Automatically trigger transcription *)
        toastId ← notify.loading "Transcribing audio...";
        try_catch_finally
          (setIsTranscribing true;;
           setTranslation "";;
           setClonedAudioUrl None;;
           resp ← axios.post (PostTranscribe (AudioFile file) (file_name file))
                             (transcribe net (AudioFile file) (file_name file));
           if (status resp =? 200)%nat && truthy_opt (data resp ≫= d_text) then
             let transcribedText := default "" (data resp ≫= d_text) in
             setTranscription transcribedText;;
             notify.update toastId "Transcription complete!" "success";;
             (* Automatically trigger translation if transcription is successful *)
             if negb (String.eqb transcribedText NO_TRANSCRIPTION)
             then translateText transcribedText
             else mret tt
           else
             throw (new_Error
                      (opt_or (data resp ≫= d_error)
                              ERROR_MESSAGES.TRANSCRIPTION.FAILED)))
          (λ error,
             notify.update toastId
               (str_or (message error) ERROR_MESSAGES.TRANSCRIPTION.FAILED)
               "error";;
             setTranscription "")
          (setIsTranscribing false)
  end.

(** [!v] for a value that is an object or [null]. *)
Definition is_null {A} (v : option A) : bool :=
  match v with
  | Some _ => false
  | None => true
  end.

(** [uploadedFile || lastRecordingRef.current] *)
Definition reference_audio (uploaded : option File) (recording : option Blob)
    : option Audio :=
  match uploaded with
  | Some f => Some (AudioFile f)
  | None => AudioBlob <$> recording
  end.

(** [formData.append('reference_audio', audioFile, fileName)]: the value
    must be a [Blob]. *)
Definition append_reference_audio (audioFile : option Audio) : M Audio :=
  match audioFile with
  | Some a => mret a
  | None =>
      throw (new_TypeError
        "Failed to execute 'append' on 'FormData': parameter 2 is not of type 'Blob'.")
  end.

(** [response.data.size], read while logging the reply: a [null] body makes
    the property access throw. *)
Definition data_size (resp : Response Blob) : M N :=
  match data resp with
  | Some b => mret (blob_size b)
  | None => throw (new_TypeError "Cannot read properties of null (reading 'size')")
  end.

(** [!response.data || response.data.size === 0] *)
Definition empty_body (resp : Response Blob) : bool :=
  match data resp with
  | Some b => (blob_size b =? 0)%N
  | None => true
  end.

Definition handleCloneVoice : M unit :=
  (* Validate prerequisites *)
  if negb (truthy (translation seen)) then
    notify.error ERROR_MESSAGES.SYNTHESIS.NO_TEXT
  else
    recording ← reads lastRecordingRef;
    if is_null recording && is_null (uploadedFile seen) then
      notify.error ERROR_MESSAGES.SYNTHESIS.NO_REFERENCE
    else
      toastId ← notify.loading "Cloning voice...";
      try_catch_finally
        (setIsCloning true;;
         recording ← reads lastRecordingRef;
         let audioFile := reference_audio (uploadedFile seen) recording in
         let fileName :=
           match uploadedFile seen with
           | Some f => file_name f
           | None => "reference.webm"
           end in
         audioFile ← append_reference_audio audioFile;
         resp ← axios.post (PostSynthesize (translation seen) audioFile fileName)
                           (synthesize net (translation seen) audioFile fileName);
         _ ← data_size resp;
         (* Validate response *)
         if empty_body resp then
           throw (new_Error ERROR_MESSAGES.SYNTHESIS.FAILED)
         else
           (* Clean up previous audio URL if exists *)
           match clonedAudioUrl seen with
           | Some url => revokeObjectURL url
           | None => mret tt
           end;;
           audioUrl ← createObjectURL;
           (* Set the audio URL in state *)
           setClonedAudioUrl (Some audioUrl);;
           notify.update toastId "Voice cloning complete!" "success")
        (λ error,
           handleApiError error ERROR_MESSAGES.SYNTHESIS.FAILED;;
           (* Only clear the audio URL if there's an error *)
           setClonedAudioUrl None)
        (setIsCloning false).

End Handlers.
End App.

(** A handler fired on the current render: its closure holds the state the
    world has at that moment. *)
Definition fire {A} (handler : AppState → M A) (w : World)
    : Completion A * World * list Event :=
  handler (state w) w.

(** ** [components/Recorder.jsx] *)

Module Recorder.

Definition MediaStream := nat.

(** [new AudioRecorder(stream)]. The class is defined in
    [utils/audioRecorder]; the component depends only on how the promises of
    its [start] and [stop] settle, which is left to the [Platform] below. *)
Record AudioRecorder := { stream : MediaStream }.

(** What the component awaits: microphone access and the two methods of
    the recorder object. A rejection carries the name of the error. *)
Record Platform := {
  getUserMedia : Completion MediaStream;
  AudioRecorder_start : AudioRecorder → Completion unit;
  AudioRecorder_stop : AudioRecorder → Completion Blob
}.

Record State := {
  isRecording : bool;
  isPlaying : bool;
  isLoading : bool;
  audioUrl : option ObjectURL;
  error : option string
}.

Record World := {
  state : State;
  recorderRef : option AudioRecorder;
  browser : Browser
}.

Inductive Event :=
| OnRecordingComplete (audioBlob : Blob)
| CreatedObjectURL (u : ObjectURL).

Abbreviation R := (Eff World Event).

Definition await {A} (settled : Completion A) : R A :=
  λ w, (settled, w, []).

Definition setState (f : State → State) : R unit :=
  modify (λ w,
    {| state := f (state w); recorderRef := recorderRef w; browser := browser w |}).

Definition setIsRecording (v : bool) : R unit :=
  setState (λ s,
    {| isRecording := v; isPlaying := isPlaying s; isLoading := isLoading s;
       audioUrl := audioUrl s; error := error s |}).

Definition setIsLoading (v : bool) : R unit :=
  setState (λ s,
    {| isRecording := isRecording s; isPlaying := isPlaying s; isLoading := v;
       audioUrl := audioUrl s; error := error s |}).

Definition setAudioUrl (v : option ObjectURL) : R unit :=
  setState (λ s,
    {| isRecording := isRecording s; isPlaying := isPlaying s;
       isLoading := isLoading s; audioUrl := v; error := error s |}).

Definition setError (v : option string) : R unit :=
  setState (λ s,
    {| isRecording := isRecording s; isPlaying := isPlaying s;
       isLoading := isLoading s; audioUrl := audioUrl s; error := v |}).

Definition set_recorderRef (v : option AudioRecorder) : R unit :=
  modify (λ w, {| state := state w; recorderRef := v; browser := browser w |}).

Definition createObjectURL : R ObjectURL :=
  λ w,
    let '(u, b) := URL.createObjectURL (browser w) in
    (Normal u, {| state := state w; recorderRef := recorderRef w; browser := b |},
     [CreatedObjectURL u]).

Definition initial_world : World :=
  {| state := {| isRecording := false; isPlaying := false; isLoading := false;
                 audioUrl := None; error := None |};
     recorderRef := None;
     browser := {| live_urls := ∅; next_url := 0 |} |}.

Section Handlers.

Context (platform : Platform).

Definition handleError (msg : string) : R unit :=
  setError (Some msg);;
  setIsLoading false;;
  setIsRecording false.

Definition startRecording : R unit :=
  try_catch_finally
    (setIsLoading true;;
     setError None;;
     (* Request microphone access *)
     stream ← await (getUserMedia platform);
     let recorder := {| stream := stream |} in
     set_recorderRef (Some recorder);;
     await (AudioRecorder_start platform recorder);;
     setIsRecording true;;
     setAudioUrl None)
    (λ error,
       let errorMessage :=
         if String.eqb (name error) "NotAllowedError" then
           "Microphone access was denied. Please allow microphone access to record audio."
         else if String.eqb (name error) "NotFoundError" then
           "No microphone found. Please connect a microphone and try again."
         else "Failed to start recording" in
       handleError errorMessage)
    (setIsLoading false).

Definition stopRecording : R unit :=
  current ← reads recorderRef;
  match current with
  | None => mret tt
  | Some recorder =>
      try_catch_finally
        (setIsLoading true;;
         setError None;;
         audioBlob ← await (AudioRecorder_stop platform recorder);
         url ← createObjectURL;
         setAudioUrl (Some url);;
         setIsRecording false;;
         (* onRecordingComplete?.(audioBlob) *)
         emit (OnRecordingComplete audioBlob))
        (λ _, handleError "Failed to stop recording. Please try again.")
        (setIsLoading false)
  end.

End Handlers.

(** A call fails when it throws or leaves an error for the user. *)
Definition fails {A} (o : Completion A * World * list Event) : Prop :=
  (∃ e, completion_of o = Thrown e) ∨ is_Some (error (state (world_of o))).

End Recorder.

(** ** [components/AudioPlayer.jsx] *)

(** The handlers of the player are fired on the current render: what they
    read of the state is what the world holds. *)

Module AudioPlayer.

(** Volumes and times are JavaScript numbers; the handlers below only store
    and compare them (the element checks the range of a volume), so exact
    rationals stand for them. *)
Record State := {
  isPlaying : bool;
  currentTime : Q;
  duration : Q;
  volume : Q;
  isMuted : bool
}.

(** The [<audio>] element behind [audioRef]. *)
Record AudioElement := { el_volume : Q; el_muted : bool; el_currentTime : Q }.

Record World := { state : State; audioRef : option AudioElement }.

(** [useState(1)], [useState(false)]; an element starts at full volume. *)
Definition initial_world : World :=
  {| state := {| isPlaying := false; currentTime := 0; duration := 0;
                 volume := 1; isMuted := false |};
     audioRef := Some {| el_volume := 1; el_muted := false; el_currentTime := 0 |} |}.

(** The error of [audioRef.current.volume = newValue] for a value outside
    the range from 0 to 1. *)
Definition IndexSizeError : JsError :=
  {| name := "IndexSizeError";
     message := "The volume provided is outside the range [0, 1].";
     response := None; request := false |}.

Definition volume_in_range (v : Q) : bool := Qle_bool 0 v && Qle_bool v 1.

(** [handleVolumeChange]: how the handler completes, and the world it
    leaves. The assignment to the element's volume comes first; when it
    throws, [setVolume] and [setIsMuted] are not reached. *)
Definition handleVolumeChange (newValue : Q) (w : World)
    : Completion unit * World :=
  match audioRef w with
  | Some el =>
      if volume_in_range newValue then
        (Normal tt,
         {| state :=
              {| isPlaying := isPlaying (state w);
                 currentTime := currentTime (state w);
                 duration := duration (state w);
                 volume := newValue;
                 isMuted := Qeq_bool newValue 0 |};
            audioRef :=
              Some {| el_volume := newValue; el_muted := el_muted el;
                      el_currentTime := el_currentTime el |} |})
      else (Thrown IndexSizeError, w)
  | None => (Normal tt, w)
  end.

Definition handleMuteToggle (w : World) : World :=
  match audioRef w with
  | Some el =>
      let newMuted := negb (isMuted (state w)) in
      {| state :=
           {| isPlaying := isPlaying (state w);
              currentTime := currentTime (state w);
              duration := duration (state w);
              volume := if newMuted then 0 else 1;
              isMuted := newMuted |};
         audioRef :=
           Some {| el_volume := el_volume el; el_muted := newMuted;
                   el_currentTime := el_currentTime el |} |}
  | None => w
  end.

End AudioPlayer.

(** ** Notions used by the properties *)

(** A call aborts with [msg]: it shows that one error toast, completes,
    sends nothing and changes nothing in the world. *)
Definition aborts_with {A} (msg : string) (w : World)
    (o : Completion A * World * list Event) : Prop :=
  (∃ a, completion_of o = Normal a) ∧ world_of o = w ∧
  events_of o = [ToastError None msg].

Definition is_post (e : Event) : bool :=
  match e with
  | HttpPost _ => true
  | _ => false
  end.

(** The message of a rejected upload: the type is checked before the size. *)
Definition upload_rejection (file : File) : string :=
  if bool_decide (file_type file ∈ ALLOWED_AUDIO_TYPES)
  then "File size must be less than 10MB."
  else ERROR_MESSAGES.TRANSCRIPTION.INVALID_FORMAT.

(** The reference audio and the file name [handleCloneVoice] sends: the
    uploaded file if there is one, else the last recording. *)
Definition clone_reference (w : World) : option (Audio * string) :=
  match uploadedFile (state w) with
  | Some f => Some (AudioFile f, file_name f)
  | None => (λ b, (AudioBlob b, "reference.webm")) <$> lastRecordingRef w
  end.

(** The reply carries a non-empty body. *)
Definition synthesis_ok (reply : Settled Blob) : bool :=
  match reply with
  | Resolved r => negb (App.empty_body r)
  | Rejected _ => false
  end.

(** The world left by a synthesis that ran: one more toast, [isCloning]
    back to [false], and the result URL and object URLs as given. *)
Definition after_clone (w : World) (url : option ObjectURL) (b : Browser) : World :=
  {| state :=
       {| transcription := transcription (state w);
          translation := translation (state w);
          isTranscribing := isTranscribing (state w);
          isTranslating := isTranslating (state w);
          isCloning := false;
          targetLang := targetLang (state w);
          clonedAudioUrl := url;
          uploadedFile := uploadedFile (state w) |};
     lastRecordingRef := lastRecordingRef w;
     browser := b;
     toasts := S (toasts w) |}.

(** What the error handler of [handleCloneVoice] shows for a failed reply. *)
Definition synthesis_failure_message (reply : Settled Blob) : string :=
  match reply with
  | Rejected e =>
      match response e with
      | Some resp =>
          str_or (opt_or (err_data_error resp) ERROR_MESSAGES.SYNTHESIS.FAILED)
                 ERROR_MESSAGES.SERVER
      | None =>
          if request e then ERROR_MESSAGES.NETWORK
          else ERROR_MESSAGES.SYNTHESIS.FAILED
      end
  | Resolved _ => ERROR_MESSAGES.SYNTHESIS.FAILED
  end.

(** Runs a handler symbolically, as far as the known inputs allow. *)
Ltac run_handler :=
  unfold fire, mbind, Eff_bind, mret, Eff_ret, reads, modify, emit, throw,
    try_catch_finally, axios.post, App.handleApiError, notify.error,
    notify.update, notify.loading, notify.success, setState,
    completion_of, world_of, events_of;
  simpl.

(** The object URLs live after a run, replayed from its events. *)
Definition step_urls (live : gset nat) (e : Event) : gset nat :=
  match e with
  | CreatedObjectURL u => {[ u ]} ∪ live
  | RevokedObjectURL u => live ∖ {[ u ]}
  | _ => live
  end.

Definition live_after (events : list Event) (live : gset nat) : gset nat :=
  foldl step_urls live events.

Definition is_revocation_of (u : ObjectURL) (e : Event) : bool :=
  match e with
  | RevokedObjectURL v => Nat.eqb v u
  | _ => false
  end.

(** How many times [URL.revokeObjectURL(u)] was called. *)
Definition revocations (u : ObjectURL) (events : list Event) : nat :=
  length (List.filter (is_revocation_of u) events).

(** The release of the previous result, if any. *)
Definition release (old : option ObjectURL) (b : Browser) : Browser :=
  match old with
  | Some u => URL.revokeObjectURL u b
  | None => b
  end.

Definition release_events (old : option ObjectURL) : list Event :=
  match old with
  | Some u => [RevokedObjectURL u]
  | None => []
  end.

(** The world once a transcription [t] has arrived and is displayed:
    [isTranscribing] is still set, the old translation and result URL are
    cleared, one more toast exists; [rec] and [up] are the reference
    recording and the uploaded file at that point. *)
Definition transcribed (w : World) (t : string)
    (rec : option Blob) (up : option File) : World :=
  {| state :=
       {| transcription := t;
          translation := "";
          isTranscribing := true;
          isTranslating := isTranslating (state w);
          isCloning := isCloning (state w);
          targetLang := targetLang (state w);
          clonedAudioUrl := None;
          uploadedFile := up |};
     lastRecordingRef := rec;
     browser := browser w;
     toasts := S (toasts w) |}.

(** What a transcription handler does from there: nothing more for the
    sentinel, else the whole run of [translateText t]; then [finally]. *)
Definition then_translate (net : Backend) (seen : AppState) (t : string)
    (w1 : World) (before : list Event) : Completion unit * World * list Event :=
  if String.eqb t NO_TRANSCRIPTION then
    (Normal tt, world_of (setIsTranscribing false w1), before)
  else
    let o := App.translateText net seen t w1 in
    (Normal tt, world_of (setIsTranscribing false (world_of o)),
     before ++ events_of o).

(** The trace of a call [translateText(text)] with a non-empty text: the
    translation request carrying [text], or the InvalidLanguage toast. *)
Definition is_translation_of (text : string) (e : Event) : bool :=
  match e with
  | HttpPost (PostTranslate t _) => String.eqb t text
  | ToastError None m => String.eqb m ERROR_MESSAGES.TRANSLATION.INVALID_LANG
  | _ => false
  end.

Definition translation_attempted (text : string) (events : list Event) : bool :=
  List.existsb (is_translation_of text) events.

(** The outcome [o] of a transcription handler, from the world [w1] in
    which the transcription [t] is displayed and after the events [before]:
    unless [t] is the sentinel, [translateText t] runs there and the
    handler ends when it returns; for the sentinel nothing more happens.
    Either way the trace shows a translation of [t] exactly when [t] is not
    the sentinel. *)
Definition translates_unless_sentinel (net : Backend) (seen : AppState)
    (t : string) (w1 : World) (before : list Event)
    (o : Completion unit * World * list Event) : Prop :=
  (t ≠ NO_TRANSCRIPTION →
     o = (Normal tt,
          world_of (setIsTranscribing false
                      (world_of (App.translateText net seen t w1))),
          before ++ events_of (App.translateText net seen t w1))) ∧
  (t = NO_TRANSCRIPTION →
     o = (Normal tt, world_of (setIsTranscribing false w1), before)) ∧
  (translation_attempted t (events_of o) = true ↔ t ≠ NO_TRANSCRIPTION).

(** ** Concrete inputs used by the examples *)

Definition hola_blob : Blob := {| blob_size := 2048; blob_type := "audio/webm" |}.

Definition speech_blob : Blob := {| blob_size := 4096; blob_type := "audio/webm" |}.

Definition notes_txt : File :=
  {| file_name := "notes.txt"; file_type := "text/plain"; file_size := 120 |}.

Definition big_wav : File :=
  {| file_name := "talk.wav"; file_type := "audio/wav";
     file_size := 15 * 1024 * 1024 |}.

Definition timeout_error : JsError :=
  {| name := "AxiosError"; message := "timeout of 60000ms exceeded";
     response := None; request := true |}.

Definition json (transcribed text_field : option string)
    (translations : option (gmap string string)) : JsonData :=
  {| d_transcription := transcribed; d_text := text_field;
     d_translations := translations; d_error := None |}.

(** A backend that never answers. *)
Definition offline : Backend :=
  {| transcribe := λ _ _, Rejected timeout_error;
     translate := λ _ _, Rejected timeout_error;
     synthesize := λ _ _ _, Rejected timeout_error |}.

(** A backend that transcribes to "Hello world", translates to
    "Hola mundo" and synthesizes a non-empty recording. *)
Definition hello_backend : Backend :=
  {| transcribe := λ _ _,
       Resolved {| status := 200;
                   data := Some (json (Some "Hello world") (Some "Hello world") None) |};
     translate := λ _ _,
       Resolved {| status := 200;
                   data := Some (json None None (Some {[ "es" := "Hola mundo" ]})) |};
     synthesize := λ _ _ _,
       Resolved {| status := 200; data := Some speech_blob |} |}.

(** A backend that has nothing to transcribe. *)
Definition silent_backend : Backend :=
  {| transcribe := λ _ _,
       Resolved {| status := 200;
                   data := Some (json (Some NO_TRANSCRIPTION) (Some NO_TRANSCRIPTION) None) |};
     translate := translate hello_backend;
     synthesize := synthesize hello_backend |}.

(** A backend whose synthesis answers 200 with a zero-length body. *)
Definition mute_backend : Backend :=
  {| transcribe := transcribe hello_backend;
     translate := translate hello_backend;
     synthesize := λ _ _ _,
       Resolved {| status := 200;
                   data := Some {| blob_size := 0; blob_type := "audio/webm" |} |} |}.

(** A world in which "Hola mundo" is displayed, a recording is kept as
    reference, and the result [blob:7] of an earlier synthesis is live. *)
Definition translated_state : AppState :=
  {| transcription := "Hello world"; translation := "Hola mundo";
     isTranscribing := false; isTranslating := false; isCloning := false;
     targetLang := Some "es"; clonedAudioUrl := Some 7; uploadedFile := None |}.

Definition cloned_world : World :=
  {| state := translated_state; lastRecordingRef := Some hola_blob;
     browser := {| live_urls := {[ 7 ]}; next_url := 8 |}; toasts := 3 |}.

(** "Hola mundo" is displayed but no reference audio was ever recorded or
    uploaded. *)
Definition no_reference_world : World :=
  {| state := translated_state; lastRecordingRef := None;
     browser := {| live_urls := {[ 7 ]}; next_url := 8 |}; toasts := 3 |}.

(** The same display with no language selected and no text. *)
Definition blank_state : AppState :=
  {| transcription := ""; translation := "";
     isTranscribing := false; isTranslating := false; isCloning := false;
     targetLang := Some ""; clonedAudioUrl := None; uploadedFile := None |}.

(** A microphone that is granted, and a recorder that starts and stops. *)
Definition working_microphone : Recorder.Platform :=
  {| Recorder.getUserMedia := Normal 0;
     Recorder.AudioRecorder_start := λ _, Normal tt;
     Recorder.AudioRecorder_stop := λ _, Normal hola_blob |}.

(** The recorder component while a recording is in progress. *)
Definition recording_world : Recorder.World :=
  {| Recorder.state :=
       {| Recorder.isRecording := true; Recorder.isPlaying := false;
          Recorder.isLoading := false; Recorder.audioUrl := None;
          Recorder.error := None |};
     Recorder.recorderRef := Some {| Recorder.stream := 0 |};
     Recorder.browser := {| live_urls := ∅; next_url := 0 |} |}.

(** The player after the volume slider was moved to one half. *)
Definition half_volume_world : AudioPlayer.World :=
  (AudioPlayer.handleVolumeChange (1 # 2) AudioPlayer.initial_world).2.

(** ** [App.jsx]: what the render derives from the state *)

Module AppRender.

(** [const isLoading = isTranscribing || isTranslating || isCloning] *)
Definition isLoading (s : AppState) : bool :=
  isTranscribing s || isTranslating s || isCloning s.

(** [{translation && (<Card> ... Voice Cloning ... </Card>)}] *)
Definition cloneCardShown (s : AppState) : bool := truthy (translation s).

(** [disabled={isCloning || (!lastRecordingRef.current && !uploadedFile)}] *)
Definition cloneButtonDisabled (s : AppState) (recording : option Blob) : bool :=
  isCloning s || (App.is_null recording && App.is_null (uploadedFile s)).

(** The cleanup returned by [React.useEffect(() => ..., [])]: it revokes
    the [clonedAudioUrl] of the render that registered the effect. *)
Definition effectCleanup (seen : AppState) : M unit :=
  match clonedAudioUrl seen with
  | Some url => revokeObjectURL url
  | None => mret tt
  end.

(** With the empty dependency array the effect is registered once, by the
    first render, and its cleanup runs when the component unmounts. *)
Definition unmount : M unit := effectCleanup initial_state.

End AppRender.

(** ** Notions used by the further properties *)

(** The world after [translateText] went past its guards and ended, with
    [tl] as the displayed translation. *)
Definition translated (w : World) (tl : string) : World :=
  {| state :=
       {| transcription := transcription (state w);
          translation := tl;
          isTranscribing := isTranscribing (state w);
          isTranslating := false;
          isCloning := isCloning (state w);
          targetLang := targetLang (state w);
          clonedAudioUrl := clonedAudioUrl (state w);
          uploadedFile := uploadedFile (state w) |};
     lastRecordingRef := lastRecordingRef w;
     browser := browser w;
     toasts := S (toasts w) |}.

(** The names every object inherits from [Object.prototype]: a lookup
    [obj[key]] with one of them finds the inherited member when [obj] holds
    nothing of its own under the key. *)
Definition Object_prototype_keys : list string :=
  ["constructor"; "__defineGetter__"; "__defineSetter__"; "hasOwnProperty";
   "__lookupGetter__"; "__lookupSetter__"; "isPrototypeOf";
   "propertyIsEnumerable"; "toString"; "valueOf"; "__proto__";
   "toLocaleString"].

(** For a language that is none of these names, the lookup in [translations]
    finds what the reply holds and nothing else. The languages the component
    offers are among them. *)
Definition own_lookup (lang : option string) : Prop :=
  js_key lang ∉ Object_prototype_keys.

(** The translation a reply offers for [lang], if it is usable. *)
Definition offered_translation (reply : Settled JsonData) (lang : option string)
    : option string :=
  match reply with
  | Resolved r =>
      if truthy_opt (App.translation_for r lang)
      then App.translation_for r lang
      else None
  | Rejected _ => None
  end.

Definition is_error_toast (e : Event) : bool :=
  match e with
  | ToastError _ _ => true
  | _ => false
  end.

(** Two worlds that differ at most in the displayed translation, the
    [isTranslating] flag and the number of toasts. *)
Definition same_but_translation (w w' : World) : Prop :=
  transcription (state w') = transcription (state w) ∧
  isTranscribing (state w') = isTranscribing (state w) ∧
  isCloning (state w') = isCloning (state w) ∧
  targetLang (state w') = targetLang (state w) ∧
  clonedAudioUrl (state w') = clonedAudioUrl (state w) ∧
  uploadedFile (state w') = uploadedFile (state w) ∧
  lastRecordingRef w' = lastRecordingRef w ∧
  browser w' = browser w.

Definition posts (events : list Event) : list Request :=
  omap (λ e, match e with HttpPost q => Some q | _ => None end) events.

(** The text a transcription reply offers: for a recording the non-empty
    [transcription] field, for an uploaded file the non-empty [text] field
    of a reply with status 200. *)
Definition recording_text (reply : Settled JsonData) : option string :=
  match reply with
  | Resolved r =>
      if truthy_opt (data r ≫= d_transcription)
      then data r ≫= d_transcription
      else None
  | Rejected _ => None
  end.

Definition upload_text (reply : Settled JsonData) : option string :=
  match reply with
  | Resolved r =>
      if (status r =? 200)%nat && truthy_opt (data r ≫= d_text)
      then data r ≫= d_text
      else None
  | Rejected _ => None
  end.

(** The world after a transcription that failed: nothing is displayed any
    more; [rec] and [up] are the reference recording and the uploaded file
    at that point. *)
Definition untranscribed (w : World) (rec : option Blob) (up : option File)
    : World :=
  {| state :=
       {| transcription := "";
          translation := "";
          isTranscribing := false;
          isTranslating := isTranslating (state w);
          isCloning := isCloning (state w);
          targetLang := targetLang (state w);
          clonedAudioUrl := None;
          uploadedFile := up |};
     lastRecordingRef := rec;
     browser := browser w;
     toasts := S (toasts w) |}.

Definition touches_urls (e : Event) : bool :=
  match e with
  | CreatedObjectURL _ | RevokedObjectURL _ => true
  | _ => false
  end.

(** What every run of a transcription handler on an accepted input
    guarantees, from the world [w] to the world [w'] with the events
    [events]; [rec] and [up] are the reference recording and the uploaded
    file it leaves. *)
Definition transcription_outcome (w w' : World) (events : list Event)
    (rec : option Blob) (up : option File) : Prop :=
  clonedAudioUrl (state w') = None ∧
  browser w' = browser w ∧
  List.existsb touches_urls events = false ∧
  lastRecordingRef w' = rec ∧
  uploadedFile (state w') = up ∧
  targetLang (state w') = targetLang (state w) ∧
  isCloning (state w') = isCloning (state w) ∧
  isTranscribing (state w') = false ∧
  (isTranslating (state w) = false → isTranslating (state w') = false) ∧
  (translation (state w') ≠ "" →
     transcription (state w') ≠ "" ∧
     transcription (state w') ≠ NO_TRANSCRIPTION).

(** A file [handleFileUpload] accepts. *)
Definition acceptable (file : File) : Prop :=
  file_type file ∈ ALLOWED_AUDIO_TYPES ∧ (file_size file ≤ 10 * 1024 * 1024)%N.

(** An mp3 file of exactly 10 MB. *)
Definition ten_mb_mp3 : File :=
  {| file_name := "lesson.mp3"; file_type := "audio/mp3";
     file_size := 10 * 1024 * 1024 |}.

(** ** The component as a transition system *)

(** What the user can do to [App]: finish a recording, select files, pick
    a target language, press Clone Voice. *)
Inductive Action :=
| FinishRecording (audioBlob : option Blob)
| SelectFiles (files : list File)
| ChangeLanguage (value : option string)
| CloneVoice.

(** One action, handled to completion by the handlers of the current
    render, with the backend as it answers at that time. *)
Definition perform (step : Backend * Action) (w : World) : World :=
  match step with
  | (net, FinishRecording audioBlob) =>
      world_of (fire (λ seen, App.handleRecordingComplete net seen audioBlob) w)
  | (net, SelectFiles files) =>
      world_of (fire (λ seen, App.handleFileUpload net seen files) w)
  | (_, ChangeLanguage value) =>
      world_of (App.handleLanguageChange value w)
  | (net, CloneVoice) =>
      world_of (fire (App.handleCloneVoice net) w)
  end.

Definition perform_all (steps : list (Backend * Action)) (w : World) : World :=
  foldl (λ w step, perform step w) w steps.

(** What holds of the component between any two actions. *)
Record Stable (w : World) : Prop := {
  stable_idle : AppRender.isLoading (state w) = false;
  stable_result_live :
    ∀ u, clonedAudioUrl (state w) = Some u → u ∈ live_urls (browser w);
  stable_fresh : ∀ u, u ∈ live_urls (browser w) → (u < next_url (browser w))%nat;
  stable_translation :
    translation (state w) ≠ "" →
    transcription (state w) ≠ "" ∧ transcription (state w) ≠ NO_TRANSCRIPTION
}.

(** "Hola mundo" is displayed, a recording exists and a file was uploaded
    as well. *)
Definition uploaded_world : World :=
  {| state :=
       {| transcription := "Hello world"; translation := "Hola mundo";
          isTranscribing := false; isTranslating := false; isCloning := false;
          targetLang := Some "es"; clonedAudioUrl := None;
          uploadedFile := Some ten_mb_mp3 |};
     lastRecordingRef := Some hola_blob;
     browser := {| live_urls := ∅; next_url := 0 |}; toasts := 2 |}.

(** ** [App.jsx]: the file input *)

(** The component together with the [<input type="file">] behind
    [fileInputRef]: [None] when the ref holds no element, else the value of
    the element. *)
Record Page := { component : World; fileInput : option string }.

Definition handleRemoveFile (p : Page) : Page :=
  {| component := world_of (setUploadedFile None (component p));
     fileInput := (λ _, "") <$> fileInput p |}.

(** ** [components/Recorder.jsx]: playback of the recording, and cycles *)

Module RecorderPlayback.

(** What [audioRef.current.play()] does: it throws at once, returns no
    promise, or returns a promise that resolves or rejects later. *)
Inductive PlayResult :=
| PlayThrows (e : JsError)
| PlayNoPromise
| PlayResolves
| PlayRejects (e : JsError).

(** The hidden [<audio>] element behind [audioRef]. *)
Record AudioElement := { pause : Completion unit; play : PlayResult }.

Definition setIsPlaying (v : bool) : Recorder.R unit :=
  Recorder.setState (λ s,
    {| Recorder.isRecording := Recorder.isRecording s;
       Recorder.isPlaying := v;
       Recorder.isLoading := Recorder.isLoading s;
       Recorder.audioUrl := Recorder.audioUrl s;
       Recorder.error := Recorder.error s |}).

(** [togglePlayback], fired on the current render. The callback given to
    [playPromise.catch] runs once the handler has returned, hence after
    [setIsPlaying(!isPlaying)]. *)
Definition togglePlayback (audioRef_current : option AudioElement)
    : Recorder.R unit :=
  match audioRef_current with
  | None => mret tt
  | Some audio =>
      isPlaying ← reads (λ w, Recorder.isPlaying (Recorder.state w));
      try_catch_finally
        ((if isPlaying : bool then
            Recorder.await (pause audio)
          else
            match play audio with
            | PlayThrows e => throw e
            | _ => mret tt
            end);;
         setIsPlaying (negb isPlaying))
        (λ _, Recorder.handleError "Failed to play audio. Please try again.")
        (mret tt);;
      if isPlaying : bool then (mret tt : Recorder.R unit)
      else
        match play audio with
        | PlayRejects _ =>
            Recorder.handleError "Failed to play audio. Please try again."
        | _ => mret tt
        end
  end.

(** [disabled={isLoading || isPlaying}] of the record button. *)
Definition recordButtonDisabled (s : Recorder.State) : bool :=
  Recorder.isLoading s || Recorder.isPlaying s.

End RecorderPlayback.

(** One recording: start, then stop. *)
Definition record_cycle (platform : Recorder.Platform) (w : Recorder.World)
    : Recorder.World :=
  world_of (Recorder.stopRecording platform
              (world_of (Recorder.startRecording platform w))).

(** The message [startRecording] shows for an error of a given name. *)
Definition start_failure_message (error_name : string) : string :=
  if String.eqb error_name "NotAllowedError" then
    "Microphone access was denied. Please allow microphone access to record audio."
  else if String.eqb error_name "NotFoundError" then
    "No microphone found. Please connect a microphone and try again."
  else "Failed to start recording".

(** Microphone access refused by the user. *)
Definition permission_denied : JsError :=
  {| name := "NotAllowedError"; message := "Permission denied";
     response := None; request := false |}.

Definition denied_microphone : Recorder.Platform :=
  {| Recorder.getUserMedia := Thrown permission_denied;
     Recorder.AudioRecorder_start := λ _, Normal tt;
     Recorder.AudioRecorder_stop := λ _, Normal hola_blob |}.

(** The recorder after one recording, its audio element failing to play. *)
Definition recorded_world : Recorder.World :=
  record_cycle working_microphone Recorder.initial_world.

Definition broken_audio : RecorderPlayback.AudioElement :=
  {| RecorderPlayback.pause := Normal tt;
     RecorderPlayback.play :=
       RecorderPlayback.PlayRejects
         {| name := "NotSupportedError"; message := "no supported source";
            response := None; request := false |} |}.

(** Every live object URL of the recorder was issued before the next one. *)
Definition recorder_fresh (w : Recorder.World) : Prop :=
  ∀ u, u ∈ live_urls (Recorder.browser w) →
       (u < next_url (Recorder.browser w))%nat.

(** ** [components/AudioPlayer.jsx]: the source effect *)

Module AudioPlayerSource.

(** The [src] prop: a [Blob], or anything else (a URL string, or nothing). *)
Inductive Source :=
| BlobSource (b : Blob)
| OtherSource (value : option string).

(** What [audioUrl] holds: an object URL the player created, or the [src]
    it was given. *)
Inductive AudioUrl :=
| OwnObjectURL (u : ObjectURL)
| GivenURL (url : string).

Record World := { audioUrl : option AudioUrl; browser : Browser }.

(** The body of [useEffect(() => ..., [src])]: the new world and the URL
    its cleanup will revoke, if it returned a cleanup. *)
Definition effect (src : Source) (w : World) : World * option ObjectURL :=
  match src with
  | BlobSource _ =>
      let '(url, b) := URL.createObjectURL (browser w) in
      ({| audioUrl := Some (OwnObjectURL url); browser := b |}, Some url)
  | OtherSource value =>
      ({| audioUrl := GivenURL <$> value; browser := browser w |}, None)
  end.

(** The cleanup an effect returned. *)
Definition cleanup (pending : option ObjectURL) (w : World) : World :=
  match pending with
  | Some url =>
      {| audioUrl := audioUrl w; browser := URL.revokeObjectURL url (browser w) |}
  | None => w
  end.

(** A render with a new [src]: the cleanup of the previous effect runs,
    then the effect of the new render. *)
Definition rerender (src : Source) (st : World * option ObjectURL)
    : World * option ObjectURL :=
  effect src (cleanup st.2 st.1).

(** The life of a player: mounted with [src], re-rendered with each source
    of [later] in turn, then unmounted. *)
Definition mounted (src : Source) (later : list Source) (w : World)
    : World * option ObjectURL :=
  foldl (λ st s, rerender s st) (effect src w) later.

Definition unmounted (src : Source) (later : list Source) (w : World) : World :=
  let st := mounted src later w in cleanup st.2 st.1.

Definition fresh (w : World) : Prop :=
  ∀ u, u ∈ live_urls (browser w) → (u < next_url (browser w))%nat.

End AudioPlayerSource.

(** ** The home page: [handleRecordingComplete] *)

Module Home.

Record World := { recordedAudio : option ObjectURL; browser : Browser }.

Abbreviation H := (Eff World Event).

Definition handleRecordingComplete (audioBlob : Blob) : H unit :=
  url ← (λ w,
           let '(u, b) := URL.createObjectURL (browser w) in
           (Normal u, {| recordedAudio := recordedAudio w; browser := b |},
            [CreatedObjectURL u]));
  modify (λ w, {| recordedAudio := Some url; browser := browser w |});;
  emit (ToastSuccess None "Recording completed successfully!").

(** [useState(null)] *)
Definition initial_world : World :=
  {| recordedAudio := None; browser := {| live_urls := ∅; next_url := 0 |} |}.

(** The recordings of a visit, handled one after the other. *)
Definition record_all (blobs : list Blob) (w : World) : World :=
  foldl (λ w blob, world_of (handleRecordingComplete blob w)) w blobs.

Definition fresh (w : World) : Prop :=
  ∀ u, u ∈ live_urls (browser w) → (u < next_url (browser w))%nat.

End Home.

(** The player, given the object URLs [base] that were live when it was
    mounted: besides them only the URL of the pending cleanup is live, that
    URL is not one of them, and it is the one [audioUrl] holds when
    [audioUrl] holds a created one. *)
Definition player_owns (base : gset nat)
    (st : AudioPlayerSource.World * option ObjectURL) : Prop :=
  live_urls (AudioPlayerSource.browser st.1)
    = base ∪ (match st.2 with Some u => {[ u ]} | None => ∅ end) ∧
  (∀ u, st.2 = Some u → u ∉ base) ∧
  (∀ u, AudioPlayerSource.audioUrl st.1
          = Some (AudioPlayerSource.OwnObjectURL u) → st.2 = Some u) ∧
  AudioPlayerSource.fresh st.1.

(** A player about to be mounted in a page where [blob:4] is live. *)
Definition player_before_mount : AudioPlayerSource.World :=
  {| AudioPlayerSource.audioUrl := None;
     AudioPlayerSource.browser := {| live_urls := {[ 4 ]}; next_url := 5 |} |}.

(** Two visits, with the backend [hello_backend] unless said otherwise:
    a recording, a synthesis, and another recording; and a recording, a
    synthesis, a synthesis that times out, and a synthesis. *)
Definition record_clone_record : list (Backend * Action) :=
  [(hello_backend, FinishRecording (Some hola_blob));
   (hello_backend, CloneVoice);
   (hello_backend, FinishRecording (Some speech_blob))].

Definition clone_fail_clone : list (Backend * Action) :=
  [(hello_backend, FinishRecording (Some hola_blob));
   (hello_backend, CloneVoice);
   (offline, CloneVoice);
   (hello_backend, CloneVoice)].

(** * Properties *)

(** ** Truthiness *)

Lemma truthy_true (s : string) : truthy s = true ↔ s ≠ "".
Proof.
  unfold truthy. rewrite negb_true_iff. split.
  - intros H ->. discriminate.
  - intros H. destruct s; [congruence | reflexivity].
Qed.

Lemma truthy_false (s : string) : truthy s = false ↔ s = "".
Proof.
  unfold truthy. rewrite negb_false_iff. split.
  - destruct s; [reflexivity | discriminate].
  - intros ->. reflexivity.
Qed.

Lemma truthy_opt_false (v : option string) :
  truthy_opt v = false ↔ v = None ∨ v = Some "".
Proof.
  destruct v as [s|]; simpl.
  - rewrite truthy_false. split; [intros ->; by right | intros [?|?]; congruence].
  - split; [by left | done].
Qed.

(** ** Changing the target language *)

(** C9. Whenever a translation is displayed, changing the target language
    stores the new language and clears the displayed translation; the
    transcription and the URL of the synthesized result stay as they were
    (and so does everything else: no object URL is touched, nothing is
    sent or shown). *)
Theorem handleLanguageChange_clears_translation
    (w : World) (lang : option string) :
  translation (state w) ≠ "" →
  let o := App.handleLanguageChange lang w in
  completion_of o = Normal tt ∧
  targetLang (state (world_of o)) = lang ∧
  translation (state (world_of o)) = "" ∧
  transcription (state (world_of o)) = transcription (state w) ∧
  clonedAudioUrl (state (world_of o)) = clonedAudioUrl (state w) ∧
  browser (world_of o) = browser w ∧
  events_of o = [].
Proof. intros _. cbv. repeat split; reflexivity. Qed.

Lemma handleLanguageChange_clears_translation_witness :
  translation (state cloned_world) ≠ "" ∧
  translation (state (world_of (App.handleLanguageChange (Some "fr") cloned_world))) = "" ∧
  transcription (state (world_of (App.handleLanguageChange (Some "fr") cloned_world)))
    = "Hello world".
Proof.
  assert (H : translation (state cloned_world) ≠ "") by discriminate.
  split; [exact H |].
  destruct (handleLanguageChange_clears_translation cloned_world (Some "fr") H)
    as (_ & _ & Htr & Hts & _).
  split; [exact Htr | exact Hts].
Defined.

(** ** Precondition errors of translation, synthesis and upload *)

(** The two guards of [translateText], before anything else happens. *)
Lemma translateText_unfold net seen text w :
  App.translateText net seen text w =
    if negb (truthy text) then
      (Normal tt, w, [ToastError None ERROR_MESSAGES.TRANSLATION.NO_TEXT])
    else if negb (truthy_opt (targetLang seen)) then
      (Normal tt, w, [ToastError None ERROR_MESSAGES.TRANSLATION.INVALID_LANG])
    else App.translateText net seen text w.
Proof.
  unfold App.translateText.
  destruct (truthy text); simpl; [| reflexivity].
  destruct (truthy_opt (targetLang seen)); reflexivity.
Qed.

(** C2, as amended. [translateText] checks the text first: with an empty
    text it aborts with the NoText message, whatever the target language;
    with a non-empty text and an empty or absent target language it aborts
    with the InvalidLanguage message. In both cases it sends no request and
    changes nothing, the displayed translation included. *)
Theorem translateText_precondition_errors
    (net : Backend) (seen : AppState) (text : string) (w : World) :
  let o := App.translateText net seen text w in
  (text = "" →
     aborts_with ERROR_MESSAGES.TRANSLATION.NO_TEXT w o ∧
     List.existsb is_post (events_of o) = false ∧
     translation (state (world_of o)) = translation (state w)) ∧
  (text ≠ "" → targetLang seen = None ∨ targetLang seen = Some "" →
     aborts_with ERROR_MESSAGES.TRANSLATION.INVALID_LANG w o ∧
     List.existsb is_post (events_of o) = false ∧
     translation (state (world_of o)) = translation (state w)).
Proof.
  intros o. subst o. rewrite translateText_unfold. split.
  - intros ->. simpl. repeat split; eauto.
  - intros Htext Hlang.
    apply truthy_true in Htext. apply truthy_opt_false in Hlang.
    rewrite Htext, Hlang. simpl. repeat split; eauto.
Qed.

Lemma translateText_precondition_errors_witness :
  aborts_with ERROR_MESSAGES.TRANSLATION.NO_TEXT cloned_world
    (App.translateText hello_backend translated_state "" cloned_world) ∧
  aborts_with ERROR_MESSAGES.TRANSLATION.INVALID_LANG cloned_world
    (App.translateText hello_backend blank_state "hola" cloned_world).
Proof.
  split.
  - apply (translateText_precondition_errors
             hello_backend translated_state "" cloned_world).
    reflexivity.
  - apply (translateText_precondition_errors
             hello_backend blank_state "hola" cloned_world).
    + discriminate.
    + right. reflexivity.
Defined.

(** C2, as stated, fails when both the text and the target language are
    empty: the call reports NoText, not InvalidLanguage. *)
Lemma translateText_both_empty_counterexample :
  targetLang blank_state = Some "" ∧
  App.translateText offline blank_state "" initial_world =
    (Normal tt, initial_world,
     [ToastError None ERROR_MESSAGES.TRANSLATION.NO_TEXT]) ∧
  ¬ aborts_with ERROR_MESSAGES.TRANSLATION.INVALID_LANG initial_world
      (App.translateText offline blank_state "" initial_world).
Proof.
  split; [reflexivity |]. split; [reflexivity |].
  intros (_ & _ & Hev). discriminate Hev.
Qed.

(** The two guards of [handleCloneVoice]. *)
Lemma handleCloneVoice_no_text net seen w :
  translation seen = "" →
  App.handleCloneVoice net seen w =
    (Normal tt, w, [ToastError None ERROR_MESSAGES.SYNTHESIS.NO_TEXT]).
Proof. intros H. unfold App.handleCloneVoice. rewrite H. reflexivity. Qed.

Lemma handleCloneVoice_no_reference net seen w :
  translation seen ≠ "" → lastRecordingRef w = None → uploadedFile seen = None →
  App.handleCloneVoice net seen w =
    (Normal tt, w, [ToastError None ERROR_MESSAGES.SYNTHESIS.NO_REFERENCE]).
Proof.
  intros Ht Hr Hu. apply truthy_true in Ht.
  unfold App.handleCloneVoice. rewrite Ht. simpl.
  unfold mbind, Eff_bind, reads. rewrite Hr, Hu. reflexivity.
Qed.

(** C3, as amended. [handleCloneVoice] checks the translated text first:
    when it is empty the call aborts with the NoText message, whether or
    not a reference is available; when it is non-empty and there is neither
    a last recording nor an uploaded file, the call aborts with the
    NoReferenceAudio message. In either case nothing is sent and the whole
    world (state, refs, object URLs) is left as it was. *)
Theorem handleCloneVoice_precondition_errors (net : Backend) (w : World) :
  let o := fire (App.handleCloneVoice net) w in
  (translation (state w) = "" →
     aborts_with ERROR_MESSAGES.SYNTHESIS.NO_TEXT w o ∧
     List.existsb is_post (events_of o) = false) ∧
  (translation (state w) ≠ "" →
   lastRecordingRef w = None → uploadedFile (state w) = None →
     aborts_with ERROR_MESSAGES.SYNTHESIS.NO_REFERENCE w o ∧
     List.existsb is_post (events_of o) = false).
Proof.
  intros o. subst o. unfold fire. split.
  - intros H. rewrite (handleCloneVoice_no_text _ _ _ H).
    repeat split; eauto.
  - intros Ht Hr Hu. rewrite (handleCloneVoice_no_reference _ _ _ Ht Hr Hu).
    repeat split; eauto.
Qed.

Lemma handleCloneVoice_precondition_errors_witness :
  aborts_with ERROR_MESSAGES.SYNTHESIS.NO_TEXT initial_world
    (fire (App.handleCloneVoice hello_backend) initial_world) ∧
  aborts_with ERROR_MESSAGES.SYNTHESIS.NO_REFERENCE no_reference_world
    (fire (App.handleCloneVoice hello_backend) no_reference_world).
Proof.
  split.
  - apply (handleCloneVoice_precondition_errors hello_backend initial_world).
    reflexivity.
  - apply (handleCloneVoice_precondition_errors hello_backend no_reference_world).
    + discriminate.
    + reflexivity.
    + reflexivity.
Defined.

(** C3, as stated, fails when the translated text is empty and no reference
    audio is available: the call reports NoText, not NoReferenceAudio. *)
Lemma handleCloneVoice_both_missing_counterexample :
  lastRecordingRef initial_world = None ∧
  uploadedFile (state initial_world) = None ∧
  fire (App.handleCloneVoice offline) initial_world =
    (Normal tt, initial_world,
     [ToastError None ERROR_MESSAGES.SYNTHESIS.NO_TEXT]) ∧
  ¬ aborts_with ERROR_MESSAGES.SYNTHESIS.NO_REFERENCE initial_world
      (fire (App.handleCloneVoice offline) initial_world).
Proof.
  split; [reflexivity |]. split; [reflexivity |]. split; [reflexivity |].
  intros (_ & _ & Hev). discriminate Hev.
Qed.

(** The two guards of [handleFileUpload] on a selected file. *)
Lemma handleFileUpload_guards net seen file others w :
  App.handleFileUpload net seen (file :: others) w =
    if negb (bool_decide (file_type file ∈ ALLOWED_AUDIO_TYPES)) then
      (Normal tt, w, [ToastError None ERROR_MESSAGES.TRANSCRIPTION.INVALID_FORMAT])
    else if (MAX_FILE_SIZE <? file_size file)%N then
      (Normal tt, w, [ToastError None "File size must be less than 10MB."])
    else App.handleFileUpload net seen (file :: others) w.
Proof.
  unfold App.handleFileUpload. cbn [head].
  destruct (bool_decide (file_type file ∈ ALLOWED_AUDIO_TYPES)); simpl negb;
    cbv iota; [| reflexivity].
  destruct (MAX_FILE_SIZE <? file_size file)%N; reflexivity.
Qed.

(** C8. A selected file whose MIME type is not audio/wav, audio/mp3 or
    audio/mpeg, or whose size exceeds 10 * 1024 * 1024 bytes, is rejected
    with an error message: the handler shows that one toast, sends no
    request (the transcription request included) and changes nothing. *)
Theorem handleFileUpload_rejects_invalid_file
    (net : Backend) (seen : AppState) (file : File) (others : list File)
    (w : World) :
  file_type file ∉ ALLOWED_AUDIO_TYPES ∨ (10 * 1024 * 1024 < file_size file)%N →
  let o := App.handleFileUpload net seen (file :: others) w in
  aborts_with (upload_rejection file) w o ∧
  List.existsb is_post (events_of o) = false ∧
  uploadedFile (state (world_of o)) = uploadedFile (state w).
Proof.
  intros H o. subst o. rewrite handleFileUpload_guards. unfold upload_rejection.
  destruct (bool_decide (file_type file ∈ ALLOWED_AUDIO_TYPES)) eqn:Hty; simpl.
  - destruct H as [H | H].
    + apply bool_decide_eq_true in Hty. contradiction.
    + apply N.ltb_lt in H. change MAX_FILE_SIZE with (10 * 1024 * 1024)%N.
      rewrite H. repeat split; eauto.
  - repeat split; eauto.
Qed.

Lemma handleFileUpload_rejects_invalid_file_witness :
  aborts_with ERROR_MESSAGES.TRANSCRIPTION.INVALID_FORMAT initial_world
    (App.handleFileUpload hello_backend initial_state [notes_txt] initial_world) ∧
  aborts_with "File size must be less than 10MB." initial_world
    (App.handleFileUpload hello_backend initial_state [big_wav] initial_world).
Proof.
  split.
  - apply (handleFileUpload_rejects_invalid_file
             hello_backend initial_state notes_txt [] initial_world).
    left. apply (bool_decide_eq_false_1 (file_type notes_txt ∈ ALLOWED_AUDIO_TYPES)). reflexivity.
  - apply (handleFileUpload_rejects_invalid_file
             hello_backend initial_state big_wav [] initial_world).
    right. reflexivity.
Defined.

(** ** Synthesis past its guards *)

Lemma handleCloneVoice_failure net w audio fname :
  translation (state w) ≠ "" →
  clone_reference w = Some (audio, fname) →
  synthesis_ok (synthesize net (translation (state w)) audio fname) = false →
  fire (App.handleCloneVoice net) w =
    (Normal tt, after_clone w None (browser w),
     [ToastLoading (toasts w) "Cloning voice...";
      HttpPost (PostSynthesize (translation (state w)) audio fname);
      ToastError None
        (synthesis_failure_message
           (synthesize net (translation (state w)) audio fname))]).
Proof.
  intros Ht Href Hfail. apply truthy_true in Ht.
  destruct w as [[ts tl b1 b2 b3 lang url up] rec br n].
  unfold clone_reference in Href. simpl in *.
  unfold fire, App.handleCloneVoice. simpl. rewrite Ht. simpl.
  assert (Hnull : App.is_null rec && App.is_null up = false).
  { destruct up, rec; try reflexivity. discriminate Href. }
  unfold mbind at 1. unfold Eff_bind at 1. unfold reads at 1. simpl.
  rewrite Hnull.
  assert (Haudio : App.reference_audio up rec = Some audio
                   ∧ match up with Some f => file_name f | None => "reference.webm" end
                     = fname).
  { destruct up as [f|]; [| destruct rec as [b|]]; simpl in Href;
      inversion Href; subst; split; reflexivity. }
  destruct Haudio as [Haudio Hname].
  run_handler. rewrite Haudio, Hname. simpl.
  destruct (synthesize net tl audio fname) as [[st [body|]]|e]; simpl in *.
  - unfold App.empty_body in *. simpl in *. apply negb_false_iff in Hfail.
    rewrite Hfail. reflexivity.
  - reflexivity.
  - destruct (response e) as [resp|]; [reflexivity |].
    destruct (request e); reflexivity.
Qed.

Lemma handleCloneVoice_success net w audio fname :
  translation (state w) ≠ "" →
  clone_reference w = Some (audio, fname) →
  synthesis_ok (synthesize net (translation (state w)) audio fname) = true →
  fire (App.handleCloneVoice net) w =
    (Normal tt,
     after_clone w (Some (next_url (browser w)))
       (URL.createObjectURL (release (clonedAudioUrl (state w)) (browser w))).2,
     [ToastLoading (toasts w) "Cloning voice...";
      HttpPost (PostSynthesize (translation (state w)) audio fname)]
     ++ release_events (clonedAudioUrl (state w))
     ++ [CreatedObjectURL (next_url (browser w));
         ToastSuccess (Some (toasts w)) "Voice cloning complete!"]).
Proof.
  intros Ht Href Hok. apply truthy_true in Ht.
  destruct w as [[ts tl b1 b2 b3 lang url up] rec br n].
  unfold clone_reference in Href. simpl in *.
  unfold fire, App.handleCloneVoice. simpl. rewrite Ht. simpl.
  assert (Hnull : App.is_null rec && App.is_null up = false).
  { destruct up, rec; try reflexivity. discriminate Href. }
  unfold mbind at 1. unfold Eff_bind at 1. unfold reads at 1. simpl.
  rewrite Hnull.
  assert (Haudio : App.reference_audio up rec = Some audio
                   ∧ match up with Some f => file_name f | None => "reference.webm" end
                     = fname).
  { destruct up as [f|]; [| destruct rec as [b|]]; simpl in Href;
      inversion Href; subst; split; reflexivity. }
  destruct Haudio as [Haudio Hname].
  run_handler. rewrite Haudio, Hname. simpl.
  destruct (synthesize net tl audio fname) as [[st [body|]]|e]; simpl in *;
    try discriminate Hok.
  unfold App.empty_body in *. simpl in *. apply negb_true_iff in Hok.
  rewrite Hok. destruct url as [u|]; reflexivity.
Qed.

(** The success path on a held URL. When [handleCloneVoice] succeeds while
    the URL [u] of the previous result is held in [clonedAudioUrl] and is
    the only live handle of the component, the run calls
    [URL.revokeObjectURL(u)] exactly once, immediately before
    [URL.createObjectURL], and stores the new URL; the new URL is then the
    only live handle, and at no point of the run (after any number of its
    events) is more than one handle live. *)
Theorem handleCloneVoice_releases_previous_url
    (net : Backend) (w : World) (u : ObjectURL) (audio : Audio) (fname : string) :
  clonedAudioUrl (state w) = Some u →
  live_urls (browser w) = {[ u ]} →
  translation (state w) ≠ "" →
  clone_reference w = Some (audio, fname) →
  synthesis_ok (synthesize net (translation (state w)) audio fname) = true →
  let o := fire (App.handleCloneVoice net) w in
  let new := next_url (browser w) in
  events_of o =
    [ToastLoading (toasts w) "Cloning voice...";
     HttpPost (PostSynthesize (translation (state w)) audio fname);
     RevokedObjectURL u;
     CreatedObjectURL new;
     ToastSuccess (Some (toasts w)) "Voice cloning complete!"] ∧
  revocations u (events_of o) = 1 ∧
  clonedAudioUrl (state (world_of o)) = Some new ∧
  live_urls (browser (world_of o)) = {[ new ]} ∧
  live_urls (browser (world_of o))
    = live_after (events_of o) (live_urls (browser w)) ∧
  ∀ k, (size (live_after (take k (events_of o)) (live_urls (browser w))) ≤ 1)%nat.
Proof.
  intros Hurl Hlive Ht Href Hok o new. subst o new.
  rewrite (handleCloneVoice_success net w audio fname Ht Href Hok).
  rewrite Hurl. unfold events_of, world_of.
  cbn [fst snd release release_events app after_clone browser state
       clonedAudioUrl URL.createObjectURL URL.revokeObjectURL live_urls next_url].
  rewrite Hlive.
  assert (Hnew : {[ next_url (browser w) ]} ∪ ({[ u ]} ∖ {[ u ]})
                 = ({[ next_url (browser w) ]} : gset nat)).
  { rewrite difference_diag_L. apply (right_id_L ∅ (∪)). }
  repeat split.
  - unfold revocations. cbn [List.filter is_revocation_of length].
    rewrite Nat.eqb_refl. reflexivity.
  - exact Hnew.
  - intros k.
    do 5 (destruct k as [|k];
          [cbn [take live_after foldl step_urls];
           rewrite ?difference_diag_L, ?(right_id_L (∅ : gset nat) (∪)),
             ?size_singleton, ?size_empty; lia |]).
    cbn [take]. rewrite take_nil. cbn [live_after foldl step_urls].
    rewrite ?difference_diag_L, ?(right_id_L (∅ : gset nat) (∪)), ?size_singleton.
    lia.
Qed.

Lemma handleCloneVoice_releases_previous_url_witness :
  live_urls (browser cloned_world) = {[ 7 ]} ∧
  events_of (fire (App.handleCloneVoice hello_backend) cloned_world) =
    [ToastLoading 3 "Cloning voice...";
     HttpPost (PostSynthesize "Hola mundo" (AudioBlob hola_blob) "reference.webm");
     RevokedObjectURL 7;
     CreatedObjectURL 8;
     ToastSuccess (Some 3) "Voice cloning complete!"] ∧
  clonedAudioUrl (state (world_of (fire (App.handleCloneVoice hello_backend)
                                        cloned_world))) = Some 8 ∧
  live_urls (browser (world_of (fire (App.handleCloneVoice hello_backend)
                                     cloned_world))) = {[ 8 ]}.
Proof.
  split; [reflexivity |].
  destruct (handleCloneVoice_releases_previous_url
              hello_backend cloned_world 7 (AudioBlob hola_blob) "reference.webm")
    as (Hev & _ & Hurl & Hlive & _).
  - reflexivity.
  - reflexivity.
  - discriminate.
  - reflexivity.
  - reflexivity.
  - split; [exact Hev |]. split; [exact Hurl | exact Hlive].
Defined.

(** The replies that make a synthesis fail: a rejected request (an error
    status, the 60 s timeout, no reply at all), a missing body, or a body of
    length zero. *)
Lemma synthesis_ok_false (reply : Settled Blob) :
  synthesis_ok reply = false ↔
    (∃ e, reply = Rejected e) ∨
    (∃ r, reply = Resolved r ∧
          (data r = None ∨ ∃ b, data r = Some b ∧ blob_size b = 0%N)).
Proof.
  destruct reply as [[st [b|]]|e]; unfold synthesis_ok, App.empty_body; simpl.
  - rewrite negb_false_iff, N.eqb_eq. split.
    + intros H. right. eexists. split; [reflexivity |]. right. eauto.
    + intros [[e He] | (r & Hr & [Hd | (b' & Hd & Hb)])].
      * discriminate He.
      * inversion Hr; subst. discriminate Hd.
      * inversion Hr; subst. simpl in Hd. congruence.
  - split; [| reflexivity]. intros _. right. eexists. split; [reflexivity |].
    left. reflexivity.
  - split; [| reflexivity]. intros _. left. eauto.
Qed.

(** C4. When [handleCloneVoice] has passed its guards and the synthesis
    fails (the request is rejected, by a remote error or a timeout, or the
    reply has no body or a zero-length one), the URL of the synthesized
    result is set to [null], and the transcription and the translation are
    left as they were. *)
Theorem handleCloneVoice_failure_clears_result
    (net : Backend) (w : World) (audio : Audio) (fname : string) :
  translation (state w) ≠ "" →
  clone_reference w = Some (audio, fname) →
  synthesis_ok (synthesize net (translation (state w)) audio fname) = false →
  let o := fire (App.handleCloneVoice net) w in
  completion_of o = Normal tt ∧
  clonedAudioUrl (state (world_of o)) = None ∧
  transcription (state (world_of o)) = transcription (state w) ∧
  translation (state (world_of o)) = translation (state w).
Proof.
  intros Ht Href Hfail o. subst o.
  rewrite (handleCloneVoice_failure net w audio fname Ht Href Hfail).
  repeat split.
Qed.

Lemma handleCloneVoice_failure_clears_result_witness :
  synthesis_ok (synthesize offline "Hola mundo" (AudioBlob hola_blob)
                           "reference.webm") = false ∧
  synthesis_ok (synthesize mute_backend "Hola mundo" (AudioBlob hola_blob)
                           "reference.webm") = false ∧
  clonedAudioUrl (state (world_of (fire (App.handleCloneVoice offline)
                                        cloned_world))) = None ∧
  clonedAudioUrl (state (world_of (fire (App.handleCloneVoice mute_backend)
                                        cloned_world))) = None ∧
  translation (state (world_of (fire (App.handleCloneVoice mute_backend)
                                     cloned_world))) = "Hola mundo".
Proof.
  split; [reflexivity |]. split; [reflexivity |].
  destruct (handleCloneVoice_failure_clears_result
              offline cloned_world (AudioBlob hola_blob) "reference.webm")
    as (_ & Hurl1 & _); [discriminate | reflexivity | reflexivity |].
  destruct (handleCloneVoice_failure_clears_result
              mute_backend cloned_world (AudioBlob hola_blob) "reference.webm")
    as (_ & Hurl2 & _ & Htl); [discriminate | reflexivity | reflexivity |].
  split; [exact Hurl1 |]. split; [exact Hurl2 | exact Htl].
Defined.

(** C10. When [handleCloneVoice] fails past its guards while the URL [u] of
    the previous result is held in [clonedAudioUrl] and live, the run sets
    [clonedAudioUrl] to [null] and never calls [URL.revokeObjectURL]: [u]
    is still live afterwards and no state variable refers to it any more. *)
Theorem handleCloneVoice_failure_leaks_previous_url
    (net : Backend) (w : World) (u : ObjectURL) (audio : Audio) (fname : string) :
  clonedAudioUrl (state w) = Some u →
  u ∈ live_urls (browser w) →
  translation (state w) ≠ "" →
  clone_reference w = Some (audio, fname) →
  synthesis_ok (synthesize net (translation (state w)) audio fname) = false →
  let o := fire (App.handleCloneVoice net) w in
  clonedAudioUrl (state (world_of o)) = None ∧
  revocations u (events_of o) = 0 ∧
  (∀ v, RevokedObjectURL v ∉ events_of o) ∧
  live_urls (browser (world_of o)) = live_urls (browser w) ∧
  u ∈ live_urls (browser (world_of o)).
Proof.
  intros Hurl Hlive Ht Href Hfail o. subst o.
  rewrite (handleCloneVoice_failure net w audio fname Ht Href Hfail).
  unfold events_of, world_of. simpl. repeat split.
  - intros v Hv. rewrite !elem_of_cons in Hv.
    destruct Hv as [Hv | [Hv | [Hv | Hv]]]; try discriminate Hv.
    by apply elem_of_nil in Hv.
  - exact Hlive.
Qed.

Lemma handleCloneVoice_failure_leaks_previous_url_witness :
  clonedAudioUrl (state cloned_world) = Some 7 ∧
  clonedAudioUrl (state (world_of (fire (App.handleCloneVoice offline)
                                        cloned_world))) = None ∧
  revocations 7 (events_of (fire (App.handleCloneVoice offline) cloned_world)) = 0 ∧
  7 ∈ live_urls (browser (world_of (fire (App.handleCloneVoice offline)
                                         cloned_world))).
Proof.
  split; [reflexivity |].
  destruct (handleCloneVoice_failure_leaks_previous_url
              offline cloned_world 7 (AudioBlob hola_blob) "reference.webm")
    as (Hurl & Hrev & _ & _ & Hin).
  - reflexivity.
  - vm_compute. reflexivity.
  - discriminate.
  - reflexivity.
  - reflexivity.
  - split; [exact Hurl |]. split; [exact Hrev | exact Hin].
Defined.

(** What C10 leads to: a failed synthesis followed by a successful one
    leaves two object URLs live, the dropped one and the new one. *)
Example leak_after_failed_synthesis :
  let w1 := world_of (fire (App.handleCloneVoice offline) cloned_world) in
  let w2 := world_of (fire (App.handleCloneVoice hello_backend) w1) in
  clonedAudioUrl (state w1) = None ∧
  clonedAudioUrl (state w2) = Some 8 ∧
  live_urls (browser w2) = {[ 7; 8 ]}.
Proof. vm_compute. repeat split. Qed.

(** ** From transcription to translation *)

(** [translateText] catches whatever goes wrong: it always completes. *)
Lemma translateText_completes net seen text w :
  ∃ w' events, App.translateText net seen text w = (Normal tt, w', events).
Proof.
  unfold App.translateText.
  destruct (truthy text); simpl; [| eauto].
  destruct (truthy_opt (targetLang seen)); simpl; [| eauto].
  run_handler.
  destruct (translate net text (targetLang seen)) as [r|e]; simpl.
  - destruct (truthy_opt (App.translation_for r (targetLang seen))); simpl; eauto.
  - destruct (response e); [eauto |]. destruct (request e); eauto.
Qed.

(** A call of [translateText] on a non-empty text leaves its trace. *)
Lemma translateText_attempted net seen text w :
  text ≠ "" →
  translation_attempted text (events_of (App.translateText net seen text w)) = true.
Proof.
  intros Ht. apply truthy_true in Ht.
  unfold App.translateText. rewrite Ht. simpl.
  destruct (truthy_opt (targetLang seen)); simpl; [| reflexivity].
  run_handler. unfold translation_attempted.
  destruct (translate net text (targetLang seen)) as [r|e]; simpl.
  - destruct (truthy_opt (App.translation_for r (targetLang seen))); simpl;
      rewrite String.eqb_refl; reflexivity.
  - destruct (response e); [simpl; rewrite String.eqb_refl; reflexivity |].
    destruct (request e); simpl; rewrite String.eqb_refl; reflexivity.
Qed.

Lemma then_translate_attempted net seen t w1 before :
  t ≠ "" →
  translation_attempted t before = false →
  translation_attempted t (events_of (then_translate net seen t w1 before))
    = negb (String.eqb t NO_TRANSCRIPTION).
Proof.
  intros Ht Hbefore. unfold then_translate.
  destruct (String.eqb t NO_TRANSCRIPTION); simpl.
  - exact Hbefore.
  - unfold translation_attempted, events_of in *. simpl.
    rewrite List.existsb_app, Hbefore. simpl.
    apply (translateText_attempted net seen t w1 Ht).
Qed.

Lemma handleRecordingComplete_success net seen w blob r d t :
  transcribe net (AudioBlob blob) "recording.webm" = Resolved r →
  data r = Some d → d_transcription d = Some t → t ≠ "" →
  App.handleRecordingComplete net seen (Some blob) w =
    then_translate net seen t
      (transcribed w t (Some blob) (uploadedFile (state w)))
      [ToastLoading (toasts w) "Transcribing audio...";
       HttpPost (PostTranscribe (AudioBlob blob) "recording.webm");
       ToastSuccess (Some (toasts w)) "Transcription complete!"].
Proof.
  intros Hreply Hdata Hfield Ht. apply truthy_true in Ht.
  unfold App.handleRecordingComplete, then_translate.
  pose proof (translateText_completes net seen) as Htr.
  set (tr := App.translateText net seen) in *. clearbody tr.
  run_handler. rewrite Hreply. simpl. rewrite Hdata. simpl. rewrite Hfield. simpl.
  rewrite Ht. simpl.
  destruct (String.eqb t NO_TRANSCRIPTION); simpl; [reflexivity |].
  unfold transcribed.
  match goal with |- context [tr t ?w1] =>
    destruct (Htr t w1) as (w' & evs & ->) end.
  simpl. rewrite ?app_nil_r. reflexivity.
Qed.

Lemma handleFileUpload_success net seen w file others r d t :
  file_type file ∈ ALLOWED_AUDIO_TYPES →
  (file_size file ≤ 10 * 1024 * 1024)%N →
  transcribe net (AudioFile file) (file_name file) = Resolved r →
  status r = 200 → data r = Some d → d_text d = Some t → t ≠ "" →
  App.handleFileUpload net seen (file :: others) w =
    then_translate net seen t
      (transcribed w t (lastRecordingRef w) (Some file))
      [ToastSuccess None "Audio file uploaded successfully!";
       ToastLoading (toasts w) "Transcribing audio...";
       HttpPost (PostTranscribe (AudioFile file) (file_name file));
       ToastSuccess (Some (toasts w)) "Transcription complete!"].
Proof.
  intros Hty Hsize Hreply Hst Hdata Hfield Ht. apply truthy_true in Ht.
  unfold App.handleFileUpload, then_translate. cbn [head].
  apply (bool_decide_eq_true_2 _) in Hty. rewrite Hty. simpl negb. cbv iota.
  assert (Hsz : (MAX_FILE_SIZE <? file_size file)%N = false).
  { apply N.ltb_ge. exact Hsize. }
  rewrite Hsz.
  pose proof (translateText_completes net seen) as Htr.
  set (tr := App.translateText net seen) in *. clearbody tr.
  run_handler. rewrite Hreply. simpl. rewrite Hst, Hdata. simpl.
  rewrite Hfield. simpl. rewrite Ht. simpl.
  destruct (String.eqb t NO_TRANSCRIPTION); simpl; [reflexivity |].
  unfold transcribed.
  match goal with |- context [tr t ?w1] =>
    destruct (Htr t w1) as (w' & evs & ->) end.
  simpl. rewrite ?app_nil_r. reflexivity.
Qed.

Lemma then_translate_spec net seen t w1 before :
  t ≠ "" →
  translation_attempted t before = false →
  translates_unless_sentinel net seen t w1 before
    (then_translate net seen t w1 before).
Proof.
  intros Ht Hbefore. unfold translates_unless_sentinel.
  rewrite (then_translate_attempted net seen t w1 before Ht Hbefore).
  unfold then_translate. repeat split.
  - intros Hne. apply String.eqb_neq in Hne. rewrite Hne. reflexivity.
  - intros Heq. apply String.eqb_eq in Heq. rewrite Heq. reflexivity.
  - intros H Heq. apply String.eqb_eq in Heq. rewrite Heq in H. discriminate H.
  - intros Hne. apply String.eqb_neq in Hne. rewrite Hne. reflexivity.
Qed.

(** C7. After a successful transcription - a reply whose [transcription]
    field (for a recording) or, with status 200, whose [text] field (for an
    uploaded file) is a non-empty text [t] - the handler displays [t] and
    then calls [translateText t] if and only if [t] is not the sentinel
    'No transcription available'; for the sentinel it sends no translation
    request and only finishes. *)
Theorem transcription_triggers_translation
    (net : Backend) (seen : AppState) (w : World) (t : string) :
  t ≠ "" →
  (∀ blob r d,
     transcribe net (AudioBlob blob) "recording.webm" = Resolved r →
     data r = Some d → d_transcription d = Some t →
     translates_unless_sentinel net seen t
       (transcribed w t (Some blob) (uploadedFile (state w)))
       [ToastLoading (toasts w) "Transcribing audio...";
        HttpPost (PostTranscribe (AudioBlob blob) "recording.webm");
        ToastSuccess (Some (toasts w)) "Transcription complete!"]
       (App.handleRecordingComplete net seen (Some blob) w)) ∧
  (∀ file others r d,
     file_type file ∈ ALLOWED_AUDIO_TYPES →
     (file_size file ≤ 10 * 1024 * 1024)%N →
     transcribe net (AudioFile file) (file_name file) = Resolved r →
     status r = 200 → data r = Some d → d_text d = Some t →
     translates_unless_sentinel net seen t
       (transcribed w t (lastRecordingRef w) (Some file))
       [ToastSuccess None "Audio file uploaded successfully!";
        ToastLoading (toasts w) "Transcribing audio...";
        HttpPost (PostTranscribe (AudioFile file) (file_name file));
        ToastSuccess (Some (toasts w)) "Transcription complete!"]
       (App.handleFileUpload net seen (file :: others) w)).
Proof.
  intros Ht. split.
  - intros blob r d Hreply Hdata Hfield.
    rewrite (handleRecordingComplete_success net seen w blob r d t
               Hreply Hdata Hfield Ht).
    apply then_translate_spec; [exact Ht | reflexivity].
  - intros file others r d Hty Hsize Hreply Hst Hdata Hfield.
    rewrite (handleFileUpload_success net seen w file others r d t
               Hty Hsize Hreply Hst Hdata Hfield Ht).
    apply then_translate_spec; [exact Ht | reflexivity].
Qed.

Lemma transcription_triggers_translation_witness :
  translation_attempted "Hello world"
    (events_of (App.handleRecordingComplete hello_backend initial_state
                  (Some hola_blob) initial_world)) = true ∧
  events_of (App.handleRecordingComplete silent_backend initial_state
               (Some hola_blob) initial_world) =
    [ToastLoading 0 "Transcribing audio...";
     HttpPost (PostTranscribe (AudioBlob hola_blob) "recording.webm");
     ToastSuccess (Some 0) "Transcription complete!"].
Proof.
  split.
  - destruct (transcription_triggers_translation
                hello_backend initial_state initial_world "Hello world")
      as [Hrec _]; [discriminate |].
    destruct (Hrec hola_blob _ _ eq_refl eq_refl eq_refl) as (_ & _ & Hiff).
    apply Hiff. discriminate.
  - destruct (transcription_triggers_translation
                silent_backend initial_state initial_world NO_TRANSCRIPTION)
      as [Hrec _]; [discriminate |].
    destruct (Hrec hola_blob _ _ eq_refl eq_refl eq_refl) as (_ & Hskip & _).
    rewrite (Hskip eq_refl). reflexivity.
Defined.

(** The scenario of the specification, run on the model: a recording is
    transcribed to "Hello world", translated to "Hola mundo", and cloned
    into one playable result. *)
Example end_to_end_scenario :
  let w1 := world_of (fire (λ seen, App.handleRecordingComplete hello_backend seen
                                      (Some hola_blob)) initial_world) in
  let w2 := world_of (fire (App.handleCloneVoice hello_backend) w1) in
  transcription (state w1) = "Hello world" ∧
  translation (state w1) = "Hola mundo" ∧
  clonedAudioUrl (state w1) = None ∧
  clonedAudioUrl (state w2) = Some 0 ∧
  live_urls (browser w2) = {[ 0 ]}.
Proof. vm_compute. repeat split. Qed.

(** ** The recorder *)

(** [recording_world] is where a first [startRecording] leads. *)
Example recording_world_reached :
  world_of (Recorder.startRecording working_microphone Recorder.initial_world)
    = recording_world.
Proof. reflexivity. Qed.

(** C5, as amended. The recorder component raises no InvalidState error.
    [stopRecording] with no recorder object (nothing was started) is a
    silent no-op. With a recorder object, stopping is left to that object,
    and whatever it throws is reported as 'Failed to stop recording. Please
    try again.', with [isRecording] reset. [startRecording] does not look at
    the recording state: whenever the microphone is granted and the new
    recorder starts, it completes without error, replaces the recorder
    object and sets [isRecording], also when a recording was in progress. *)
Theorem recorder_has_no_state_check
    (platform : Recorder.Platform) (w : Recorder.World) :
  (Recorder.recorderRef w = None →
     Recorder.stopRecording platform w = (Normal tt, w, [])) ∧
  (∀ recorder e,
     Recorder.recorderRef w = Some recorder →
     Recorder.AudioRecorder_stop platform recorder = Thrown e →
     let o := Recorder.stopRecording platform w in
     completion_of o = Normal tt ∧
     Recorder.error (Recorder.state (world_of o))
       = Some "Failed to stop recording. Please try again." ∧
     Recorder.isRecording (Recorder.state (world_of o)) = false ∧
     events_of o = []) ∧
  (∀ stream,
     Recorder.getUserMedia platform = Normal stream →
     Recorder.AudioRecorder_start platform {| Recorder.stream := stream |}
       = Normal tt →
     let o := Recorder.startRecording platform w in
     completion_of o = Normal tt ∧
     Recorder.error (Recorder.state (world_of o)) = None ∧
     Recorder.isRecording (Recorder.state (world_of o)) = true ∧
     Recorder.recorderRef (world_of o) = Some {| Recorder.stream := stream |}).
Proof.
  split; [| split].
  - intros Href. unfold Recorder.stopRecording, mbind, Eff_bind, reads.
    rewrite Href. reflexivity.
  - intros recorder e Href Hstop o. subst o.
    unfold Recorder.stopRecording, mbind, Eff_bind, reads.
    rewrite Href. unfold try_catch_finally, Recorder.await. simpl.
    rewrite Hstop. simpl. repeat split.
  - intros stream Hmedia Hstart o. subst o.
    unfold Recorder.startRecording, try_catch_finally, mbind, Eff_bind,
      Recorder.await. simpl.
    rewrite Hmedia. simpl. rewrite Hstart. simpl. repeat split.
Qed.

Lemma recorder_has_no_state_check_witness :
  Recorder.recorderRef Recorder.initial_world = None ∧
  Recorder.stopRecording working_microphone Recorder.initial_world
    = (Normal tt, Recorder.initial_world, []) ∧
  Recorder.isRecording
    (Recorder.state (world_of (Recorder.startRecording working_microphone
                                 recording_world))) = true.
Proof.
  destruct (recorder_has_no_state_check working_microphone Recorder.initial_world)
    as (Hstop & _).
  destruct (recorder_has_no_state_check working_microphone recording_world)
    as (_ & _ & Hstart).
  split; [reflexivity |]. split; [exact (Hstop eq_refl) |].
  destruct (Hstart 0 eq_refl eq_refl) as (_ & _ & Hrec & _). exact Hrec.
Defined.

(** C5, as stated, fails on both counts: stopping when nothing is being
    recorded does nothing at all, and starting during a recording
    succeeds. *)
Lemma recorder_invalid_state_counterexample :
  Recorder.isRecording (Recorder.state Recorder.initial_world) = false ∧
  ¬ Recorder.fails
      (Recorder.stopRecording working_microphone Recorder.initial_world) ∧
  Recorder.isRecording (Recorder.state recording_world) = true ∧
  ¬ Recorder.fails
      (Recorder.startRecording working_microphone recording_world).
Proof.
  split; [reflexivity |]. split; [| split; [reflexivity |]].
  - intros [[e He] | [msg Hmsg]]; discriminate.
  - intros [[e He] | [msg Hmsg]]; discriminate.
Qed.

(** ** Muting the player *)

(** C6, as amended. With the audio element present and a volume [v] in
    [0,1] held before muting: toggling mute marks the player and the
    element muted and sets the player's volume to 0, storing [v] nowhere in
    the player's state (the element keeps its own volume property);
    toggling again unmutes and sets the player's volume to 1, not to [v]:
    the volume held before is back only if it was 1. *)
Theorem handleMuteToggle_resets_volume
    (w : AudioPlayer.World) (el : AudioPlayer.AudioElement) (v : Q) :
  AudioPlayer.audioRef w = Some el →
  AudioPlayer.isMuted (AudioPlayer.state w) = false →
  AudioPlayer.volume (AudioPlayer.state w) = v →
  (0 <= v <= 1)%Q →
  let w1 := AudioPlayer.handleMuteToggle w in
  let w2 := AudioPlayer.handleMuteToggle w1 in
  AudioPlayer.isMuted (AudioPlayer.state w1) = true ∧
  AudioPlayer.volume (AudioPlayer.state w1) = 0%Q ∧
  AudioPlayer.audioRef w1
    = Some {| AudioPlayer.el_volume := AudioPlayer.el_volume el;
              AudioPlayer.el_muted := true;
              AudioPlayer.el_currentTime := AudioPlayer.el_currentTime el |} ∧
  AudioPlayer.isMuted (AudioPlayer.state w2) = false ∧
  AudioPlayer.volume (AudioPlayer.state w2) = 1%Q ∧
  AudioPlayer.audioRef w2
    = Some {| AudioPlayer.el_volume := AudioPlayer.el_volume el;
              AudioPlayer.el_muted := false;
              AudioPlayer.el_currentTime := AudioPlayer.el_currentTime el |} ∧
  ((AudioPlayer.volume (AudioPlayer.state w2) == v)%Q ↔ (v == 1)%Q).
Proof.
  intros Href Hmuted Hv Hrange w1 w2. subst w1 w2.
  unfold AudioPlayer.handleMuteToggle. rewrite Href, Hmuted. simpl.
  repeat split; intros H; symmetry; exact H.
Qed.

Lemma handleMuteToggle_resets_volume_witness :
  AudioPlayer.volume (AudioPlayer.state half_volume_world) = (1 # 2)%Q ∧
  AudioPlayer.volume
    (AudioPlayer.state (AudioPlayer.handleMuteToggle half_volume_world)) = 0%Q ∧
  AudioPlayer.volume
    (AudioPlayer.state
       (AudioPlayer.handleMuteToggle
          (AudioPlayer.handleMuteToggle half_volume_world))) = 1%Q.
Proof.
  destruct (handleMuteToggle_resets_volume half_volume_world
              {| AudioPlayer.el_volume := 1 # 2; AudioPlayer.el_muted := false;
                 AudioPlayer.el_currentTime := 0 |} (1 # 2))
    as (_ & Hv1 & _ & _ & Hv2 & _).
  - reflexivity.
  - reflexivity.
  - reflexivity.
  - split; discriminate.
  - split; [reflexivity |]. split; [exact Hv1 | exact Hv2].
Defined.

(** C6, as stated, fails for a volume of one half: after muting and
    unmuting the player's volume is 1. *)
Lemma handleMuteToggle_restore_counterexample :
  AudioPlayer.volume (AudioPlayer.state half_volume_world) = (1 # 2)%Q ∧
  AudioPlayer.isMuted (AudioPlayer.state half_volume_world) = false ∧
  AudioPlayer.volume
    (AudioPlayer.state
       (AudioPlayer.handleMuteToggle
          (AudioPlayer.handleMuteToggle half_volume_world))) = 1%Q ∧
  ¬ (AudioPlayer.volume
       (AudioPlayer.state
          (AudioPlayer.handleMuteToggle
             (AudioPlayer.handleMuteToggle half_volume_world))) == 1 # 2)%Q.
Proof.
  split; [reflexivity |]. split; [reflexivity |]. split; [reflexivity |].
  intros H. discriminate H.
Qed.

(** ** Error reporting *)

Lemma str_or_nonempty (a b : string) : b ≠ "" → str_or a b ≠ "".
Proof.
  intros Hb. unfold str_or. destruct (truthy a) eqn:Ha; [| exact Hb].
  apply truthy_true. exact Ha.
Qed.

Lemma handleApiError_message error customMessage w :
  ∃ msg,
    App.handleApiError error customMessage w
      = (Normal tt, w, [ToastError None msg]) ∧
    msg ≠ "".
Proof.
  unfold App.handleApiError.
  destruct (response error) as [resp|].
  - eexists. split; [reflexivity |]. apply str_or_nonempty. discriminate.
  - destruct (request error).
    + eexists. split; [reflexivity | discriminate].
    + eexists. split; [reflexivity |]. apply str_or_nonempty. discriminate.
Qed.

(** X1. [handleApiError] always shows exactly one error toast, its message
    is never empty (whatever the error and the custom message, even an
    empty one), and it changes nothing. *)
Theorem handleApiError_one_nonempty_message
    (error : JsError) (customMessage : string) (w : World) :
  ∃ msg,
    App.handleApiError error customMessage w
      = (Normal tt, w, [ToastError None msg]) ∧
    msg ≠ "".
Proof. exact (handleApiError_message error customMessage w). Qed.

(** ** [translateText] past its guards *)

Lemma translateText_run net seen text w :
  text ≠ "" → truthy_opt (targetLang seen) = true →
  App.translateText net seen text w =
    match offered_translation (translate net text (targetLang seen))
            (targetLang seen) with
    | Some t =>
        (Normal tt, translated w t,
         [ToastLoading (toasts w) "Translating text...";
          HttpPost (PostTranslate text (targetLang seen));
          ToastSuccess (Some (toasts w)) "Translation completed!"])
    | None =>
        let error :=
          match translate net text (targetLang seen) with
          | Resolved _ => new_Error ERROR_MESSAGES.TRANSLATION.FAILED
          | Rejected e => e
          end in
        (Normal tt, translated w (translation (state w)),
         [ToastLoading (toasts w) "Translating text...";
          HttpPost (PostTranslate text (targetLang seen));
          ToastError (Some (toasts w))
            (str_or (message error) ERROR_MESSAGES.TRANSLATION.FAILED)]
         ++ events_of (App.handleApiError error
                         ERROR_MESSAGES.TRANSLATION.FAILED w))
    end.
Proof.
  intros Ht Hl. apply truthy_true in Ht.
  unfold App.translateText. rewrite Ht, Hl. simpl.
  unfold offered_translation.
  destruct w as [[ts tl b1 b2 b3 lang url up] rec br n].
  run_handler.
  destruct (translate net text (targetLang seen)) as [r|e]; simpl.
  - destruct (truthy_opt (App.translation_for r (targetLang seen))) eqn:Hv; simpl.
    + destruct (App.translation_for r (targetLang seen)); [reflexivity |].
      discriminate Hv.
    + reflexivity.
  - destruct (response e); [reflexivity |]. destruct (request e); reflexivity.
Qed.

(** X2. With a non-empty text and a target language [l], when the reply
    carries a non-empty entry [t] for [l] in its [translations] map,
    [translateText] sends one request, displays [t], clears
    [isTranslating] and confirms with one success toast. *)
Theorem translateText_displays_offered_translation
    (net : Backend) (seen : AppState) (text l t : string) (w : World)
    (r : Response JsonData) (d : JsonData) (m : gmap string string) :
  text ≠ "" → targetLang seen = Some l → l ≠ "" →
  translate net text (Some l) = Resolved r →
  data r = Some d → d_translations d = Some m → m !! l = Some t → t ≠ "" →
  let o := App.translateText net seen text w in
  completion_of o = Normal tt ∧
  translation (state (world_of o)) = t ∧
  isTranslating (state (world_of o)) = false ∧
  events_of o =
    [ToastLoading (toasts w) "Translating text...";
     HttpPost (PostTranslate text (Some l));
     ToastSuccess (Some (toasts w)) "Translation completed!"].
Proof.
  intros Ht Hlang Hl Hreply Hdata Hmap Hkey Hval o. subst o.
  assert (Htl : truthy_opt (targetLang seen) = true).
  { rewrite Hlang. simpl. apply truthy_true. exact Hl. }
  rewrite (translateText_run net seen text w Ht Htl).
  rewrite Hlang, Hreply. unfold offered_translation, App.translation_for.
  rewrite Hdata. simpl. rewrite Hmap. simpl. rewrite Hkey. simpl.
  apply truthy_true in Hval. rewrite Hval. repeat split.
Qed.

Lemma translateText_displays_offered_translation_witness :
  translation
    (state (world_of (App.translateText hello_backend initial_state "Hello world"
                        initial_world))) = "Hola mundo" ∧
  isTranslating
    (state (world_of (App.translateText hello_backend initial_state "Hello world"
                        initial_world))) = false.
Proof.
  edestruct (translateText_displays_offered_translation
               hello_backend initial_state "Hello world" "es" "Hola mundo"
               initial_world) as (_ & Htl & Hflag & _).
  - discriminate.
  - reflexivity.
  - discriminate.
  - reflexivity.
  - reflexivity.
  - reflexivity.
  - reflexivity.
  - discriminate.
  - split; [exact Htl | exact Hflag].
Defined.

(** X3. With a non-empty text and a target language that is not a name
    inherited from [Object.prototype], when the reply offers no usable
    translation (the request is rejected, the body or the [translations]
    map or the entry of the language is missing, or the entry is empty),
    [translateText] leaves the displayed translation as it was, clears
    [isTranslating], and reports the failure twice: once on the loading
    toast, once through [handleApiError]. *)
Theorem translateText_failure_keeps_translation
    (net : Backend) (seen : AppState) (text : string) (w : World) :
  text ≠ "" → truthy_opt (targetLang seen) = true →
  own_lookup (targetLang seen) →
  offered_translation (translate net text (targetLang seen)) (targetLang seen)
    = None →
  let o := App.translateText net seen text w in
  completion_of o = Normal tt ∧
  translation (state (world_of o)) = translation (state w) ∧
  isTranslating (state (world_of o)) = false ∧
  ∃ m1 m2,
    m1 ≠ "" ∧ m2 ≠ "" ∧
    events_of o =
      [ToastLoading (toasts w) "Translating text...";
       HttpPost (PostTranslate text (targetLang seen));
       ToastError (Some (toasts w)) m1;
       ToastError None m2].
Proof.
  intros Ht Hl _ Hnone o. subst o.
  rewrite (translateText_run net seen text w Ht Hl), Hnone.
  cbv zeta. unfold completion_of, world_of, events_of. simpl.
  repeat split.
  match goal with |- context [App.handleApiError ?e ?c w] =>
    destruct (handleApiError_message e c w) as (m2 & -> & Hm2);
    exists (str_or (message e) c), m2 end.
  split; [| split; [exact Hm2 | reflexivity]].
  apply str_or_nonempty. discriminate.
Qed.

Lemma translateText_failure_keeps_translation_witness :
  own_lookup (targetLang translated_state) ∧
  translation
    (state (world_of (App.translateText offline translated_state "Hello world"
                        cloned_world))) = "Hola mundo".
Proof.
  assert (Hown : own_lookup (targetLang translated_state)).
  { apply (bool_decide_eq_false_1
             (js_key (targetLang translated_state) ∈ Object_prototype_keys)).
    reflexivity. }
  split; [exact Hown |].
  edestruct (translateText_failure_keeps_translation
               offline translated_state "Hello world" cloned_world)
    as (_ & Htl & _).
  - discriminate.
  - reflexivity.
  - exact Hown.
  - reflexivity.
  - exact Htl.
Defined.

Lemma translateText_outcome net seen text w :
  (∃ msg, App.translateText net seen text w
            = (Normal tt, w, [ToastError None msg])) ∨
  (text ≠ "" ∧
   ∃ tl events,
     App.translateText net seen text w = (Normal tt, translated w tl, events) ∧
     posts events = [PostTranslate text (targetLang seen)] ∧
     List.existsb touches_urls events = false ∧
     (tl = translation (state w) ∨ tl ≠ "")).
Proof.
  destruct (truthy text) eqn:Ht.
  - destruct (truthy_opt (targetLang seen)) eqn:Hl.
    + right. apply truthy_true in Ht. split; [exact Ht |].
      rewrite (translateText_run net seen text w Ht Hl).
      destruct (offered_translation _ _) as [t|] eqn:Hoff.
      * eexists _, _. split; [reflexivity |]. split; [reflexivity |].
        split; [reflexivity |].
        right. unfold offered_translation in Hoff.
        destruct (translate net text (targetLang seen)) as [r|e];
          [| discriminate Hoff].
        destruct (truthy_opt (App.translation_for r (targetLang seen))) eqn:Hv;
          [| discriminate Hoff].
        rewrite Hoff in Hv. simpl in Hv. apply truthy_true. exact Hv.
      * cbv zeta.
        match goal with |- context [App.handleApiError ?e ?c w] =>
          destruct (handleApiError_message e c w) as (m2 & -> & _) end.
        eexists _, _. split; [reflexivity |]. split; [reflexivity |].
        split; [reflexivity |].
        left. reflexivity.
    + left. rewrite translateText_unfold, Ht, Hl. simpl. eauto.
  - left. rewrite translateText_unfold, Ht. simpl. eauto.
Qed.

(** X4. For every text, every reply and every target language that is
    not a name inherited from [Object.prototype], [translateText] completes
    without throwing, changes nothing but the displayed translation, the
    [isTranslating] flag and the toasts, never leaves [isTranslating] set
    when it was not, never displays an empty translation in place of a
    non-empty one, and sends at most one request, a translation request
    for that text. *)
Theorem translateText_frame
    (net : Backend) (seen : AppState) (text : string) (w : World) :
  own_lookup (targetLang seen) →
  let o := App.translateText net seen text w in
  completion_of o = Normal tt ∧
  same_but_translation w (world_of o) ∧
  (isTranslating (state w) = false →
     isTranslating (state (world_of o)) = false) ∧
  (translation (state w) ≠ "" → translation (state (world_of o)) ≠ "") ∧
  (posts (events_of o) = [] ∨
   posts (events_of o) = [PostTranslate text (targetLang seen)]).
Proof.
  intros _ o. subst o.
  destruct (translateText_outcome net seen text w)
    as [[msg ->] | (_ & tl & events & -> & Hposts & _ & Htl)].
  - unfold completion_of, world_of, events_of, same_but_translation. simpl.
    repeat split; auto.
  - unfold completion_of, world_of, events_of, same_but_translation. simpl.
    repeat split; auto.
    intros Hold. destruct Htl as [-> | Hne]; assumption.
Qed.

Lemma translateText_frame_witness :
  own_lookup (targetLang initial_state) ∧
  same_but_translation initial_world
    (world_of (App.translateText hello_backend initial_state "Hello world"
                 initial_world)) ∧
  posts (events_of (App.translateText hello_backend initial_state "Hello world"
                      initial_world))
    = [PostTranslate "Hello world" (Some "es")].
Proof.
  assert (Hown : own_lookup (targetLang initial_state)).
  { apply (bool_decide_eq_false_1
             (js_key (targetLang initial_state) ∈ Object_prototype_keys)).
    reflexivity. }
  split; [exact Hown |].
  destruct (translateText_frame hello_backend initial_state "Hello world"
              initial_world Hown) as (_ & Hframe & _ & _ & _).
  split; [exact Hframe | reflexivity].
Defined.

(** ** Transcription of a recording *)

Lemma recording_text_Some reply t :
  recording_text reply = Some t →
  ∃ r d, reply = Resolved r ∧ data r = Some d ∧ d_transcription d = Some t ∧
         t ≠ "".
Proof.
  unfold recording_text. destruct reply as [r|e]; [| discriminate].
  destruct (truthy_opt (data r ≫= d_transcription)) eqn:Hv; [| discriminate].
  intros Hf. rewrite Hf in Hv. simpl in Hv. apply truthy_true in Hv.
  destruct (data r) as [d|] eqn:Hd; [| discriminate Hf]. simpl in Hf.
  exists r, d. auto.
Qed.

Lemma handleRecordingComplete_failure net seen w blob :
  recording_text (transcribe net (AudioBlob blob) "recording.webm") = None →
  ∃ msg,
    msg ≠ "" ∧
    App.handleRecordingComplete net seen (Some blob) w =
      (Normal tt, untranscribed w (Some blob) (uploadedFile (state w)),
       [ToastLoading (toasts w) "Transcribing audio...";
        HttpPost (PostTranscribe (AudioBlob blob) "recording.webm");
        ToastError None msg]).
Proof.
  intros Hnone. unfold App.handleRecordingComplete, recording_text in *.
  destruct (transcribe net (AudioBlob blob) "recording.webm") as [r|e].
  - destruct r as [st [d|]]; simpl in Hnone.
    + destruct (d_transcription d) as [t|] eqn:Hf; simpl in Hnone.
      * destruct (truthy t) eqn:Hv; [discriminate Hnone |].
        run_handler. rewrite Hf. simpl. rewrite Hv. simpl.
        eexists. split; [| reflexivity]. discriminate.
      * run_handler. rewrite Hf. simpl.
        eexists. split; [| reflexivity]. discriminate.
    + run_handler. eexists. split; [| reflexivity]. discriminate.
  - destruct (handleApiError_message e ERROR_MESSAGES.TRANSCRIPTION.FAILED
                (world_of (setIsTranscribing true w))) as (msg & Hmsg & Hne).
    exists msg. split; [exact Hne |].
    unfold App.handleApiError in Hmsg. run_handler.
    destruct (response e) as [resp|];
      [| destruct (request e)]; simpl in *; inversion Hmsg; reflexivity.
Qed.

(** X5. When the transcription of a recording fails (the request is
    rejected, or the reply has no non-empty [transcription] field), the
    handler completes with one error toast and clears the transcription,
    the translation and the result URL; the recording is nevertheless kept
    as the reference audio, and no translation is requested. *)
Theorem handleRecordingComplete_failure_clears_texts
    (net : Backend) (seen : AppState) (w : World) (blob : Blob) :
  recording_text (transcribe net (AudioBlob blob) "recording.webm") = None →
  let o := App.handleRecordingComplete net seen (Some blob) w in
  completion_of o = Normal tt ∧
  transcription (state (world_of o)) = "" ∧
  translation (state (world_of o)) = "" ∧
  clonedAudioUrl (state (world_of o)) = None ∧
  isTranscribing (state (world_of o)) = false ∧
  lastRecordingRef (world_of o) = Some blob ∧
  posts (events_of o) = [PostTranscribe (AudioBlob blob) "recording.webm"] ∧
  List.length (List.filter is_error_toast (events_of o)) = 1.
Proof.
  intros Hnone o. subst o.
  destruct (handleRecordingComplete_failure net seen w blob Hnone)
    as (msg & _ & ->).
  repeat split.
Qed.

Lemma handleRecordingComplete_failure_clears_texts_witness :
  recording_text (transcribe offline (AudioBlob speech_blob) "recording.webm")
    = None ∧
  transcription
    (state (world_of (App.handleRecordingComplete offline translated_state
                        (Some speech_blob) cloned_world))) = "" ∧
  lastRecordingRef
    (world_of (App.handleRecordingComplete offline translated_state
                 (Some speech_blob) cloned_world)) = Some speech_blob.
Proof.
  split; [reflexivity |].
  destruct (handleRecordingComplete_failure_clears_texts
              offline translated_state cloned_world speech_blob eq_refl)
    as (_ & Hts & _ & _ & _ & Href & _).
  split; [exact Hts | exact Href].
Defined.

Lemma then_translate_outcome net seen t w w1 before rec up :
  t ≠ "" →
  w1 = transcribed w t rec up →
  List.existsb touches_urls before = false →
  ∃ w' events,
    then_translate net seen t w1 before = (Normal tt, w', before ++ events) ∧
    transcription_outcome w w' (before ++ events) rec up.
Proof.
  intros Ht -> Hbefore. unfold then_translate.
  destruct (String.eqb t NO_TRANSCRIPTION) eqn:Hs.
  - exists (world_of (setIsTranscribing false (transcribed w t rec up))), [].
    rewrite app_nil_r. split; [reflexivity |].
    unfold transcription_outcome. simpl. repeat split; auto.
    all: intros H; exfalso; apply H; reflexivity.
  - apply String.eqb_neq in Hs.
    destruct (translateText_outcome net seen t (transcribed w t rec up))
      as [[msg ->] | (_ & tl & events & -> & _ & Hurls & Htl)].
    + eexists _, _. split; [reflexivity |].
      unfold transcription_outcome. simpl. rewrite List.existsb_app, Hbefore.
      simpl. repeat split; auto.
      all: intros H; exfalso; apply H; reflexivity.
    + eexists _, _. split; [reflexivity |].
      unfold transcription_outcome. simpl. rewrite List.existsb_app, Hbefore, Hurls.
      simpl. repeat split; auto.
Qed.

Lemma handleRecordingComplete_outcome net seen w blob :
  ∃ w' events,
    App.handleRecordingComplete net seen (Some blob) w = (Normal tt, w', events) ∧
    transcription_outcome w w' events (Some blob) (uploadedFile (state w)).
Proof.
  destruct (recording_text (transcribe net (AudioBlob blob) "recording.webm"))
    as [t|] eqn:Htext.
  - destruct (recording_text_Some _ _ Htext) as (r & d & Hreply & Hd & Hf & Ht).
    rewrite (handleRecordingComplete_success net seen w blob r d t Hreply Hd Hf Ht).
    destruct (then_translate_outcome net seen t w _
                [ToastLoading (toasts w) "Transcribing audio...";
                 HttpPost (PostTranscribe (AudioBlob blob) "recording.webm");
                 ToastSuccess (Some (toasts w)) "Transcription complete!"]
                (Some blob) (uploadedFile (state w)) Ht eq_refl eq_refl)
      as (w' & events & -> & Hout).
    eauto.
  - destruct (handleRecordingComplete_failure net seen w blob Htext)
      as (msg & _ & ->).
    eexists _, _. split; [reflexivity |].
    unfold transcription_outcome. simpl. repeat split; auto.
    all: intros H; exfalso; apply H; reflexivity.
Qed.

(** X6. Whatever the reply, handling a recording completes without
    throwing, keeps the recording as the reference audio and clears
    [isTranscribing]; it sets [clonedAudioUrl] to [null] without ever
    calling [URL.revokeObjectURL]: the set of live object URLs is unchanged,
    so a result that was displayed stays live with nothing referring to
    it. *)
Theorem handleRecordingComplete_drops_result_unreleased
    (net : Backend) (seen : AppState) (w : World) (blob : Blob) :
  let o := App.handleRecordingComplete net seen (Some blob) w in
  completion_of o = Normal tt ∧
  lastRecordingRef (world_of o) = Some blob ∧
  isTranscribing (state (world_of o)) = false ∧
  clonedAudioUrl (state (world_of o)) = None ∧
  List.existsb touches_urls (events_of o) = false ∧
  live_urls (browser (world_of o)) = live_urls (browser w).
Proof.
  intros o. subst o.
  destruct (handleRecordingComplete_outcome net seen w blob)
    as (w' & events & -> & Hurl & Hb & Hev & Href & _ & _ & _ & Hflag & _).
  unfold completion_of, world_of, events_of. simpl.
  rewrite Hb. repeat split; assumption.
Qed.

(** ** Transcription of an uploaded file *)

Lemma upload_text_Some reply t :
  upload_text reply = Some t →
  ∃ r d, reply = Resolved r ∧ status r = 200 ∧ data r = Some d ∧
         d_text d = Some t ∧ t ≠ "".
Proof.
  unfold upload_text. destruct reply as [r|e]; [| discriminate].
  destruct (status r =? 200)%nat eqn:Hst; [| discriminate].
  destruct (truthy_opt (data r ≫= d_text)) eqn:Hv; [| discriminate].
  simpl. intros Hf. rewrite Hf in Hv. simpl in Hv. apply truthy_true in Hv.
  destruct (data r) as [d|] eqn:Hd; [| discriminate Hf]. simpl in Hf.
  apply Nat.eqb_eq in Hst. exists r, d. auto.
Qed.

Lemma handleFileUpload_accepts file :
  acceptable file →
  (negb (bool_decide (file_type file ∈ ALLOWED_AUDIO_TYPES)) = false) ∧
  (MAX_FILE_SIZE <? file_size file)%N = false.
Proof.
  intros [Hty Hsize]. split.
  - apply negb_false_iff. apply bool_decide_eq_true_2. exact Hty.
  - apply N.ltb_ge. exact Hsize.
Qed.

Lemma handleFileUpload_failure net seen w file others :
  acceptable file →
  upload_text (transcribe net (AudioFile file) (file_name file)) = None →
  ∃ msg,
    msg ≠ "" ∧
    App.handleFileUpload net seen (file :: others) w =
      (Normal tt, untranscribed w (lastRecordingRef w) (Some file),
       [ToastSuccess None "Audio file uploaded successfully!";
        ToastLoading (toasts w) "Transcribing audio...";
        HttpPost (PostTranscribe (AudioFile file) (file_name file));
        ToastError (Some (toasts w)) msg]).
Proof.
  intros Hok Hnone.
  destruct (handleFileUpload_accepts file Hok) as [Hty Hsz].
  unfold App.handleFileUpload. cbn [head]. rewrite Hty, Hsz.
  unfold upload_text in Hnone.
  destruct (transcribe net (AudioFile file) (file_name file)) as [r|e].
  - destruct r as [st [d|]]; simpl in Hnone.
    + destruct (st =? 200)%nat eqn:Hst; simpl in Hnone.
      * destruct (d_text d) as [t|] eqn:Hf; simpl in Hnone.
        -- destruct (truthy t) eqn:Hv; [discriminate Hnone |].
           run_handler. rewrite Hst, Hf. simpl. rewrite Hv. simpl.
           eexists. split; [| reflexivity].
           apply str_or_nonempty. discriminate.
        -- run_handler. rewrite Hst, Hf. simpl.
           eexists. split; [| reflexivity].
           apply str_or_nonempty. discriminate.
      * run_handler. rewrite Hst. simpl.
        eexists. split; [| reflexivity].
        apply str_or_nonempty. discriminate.
    + run_handler. rewrite andb_false_r.
      eexists. split; [| reflexivity]. discriminate.
  - run_handler. eexists. split; [| reflexivity].
    apply str_or_nonempty. discriminate.
Qed.

Lemma handleFileUpload_outcome net seen w file others :
  acceptable file →
  ∃ w' events,
    App.handleFileUpload net seen (file :: others) w = (Normal tt, w', events) ∧
    transcription_outcome w w' events (lastRecordingRef w) (Some file) ∧
    ∃ rest,
      posts events = PostTranscribe (AudioFile file) (file_name file) :: rest.
Proof.
  intros Hok.
  destruct (upload_text (transcribe net (AudioFile file) (file_name file)))
    as [t|] eqn:Htext.
  - destruct (upload_text_Some _ _ Htext)
      as (r & d & Hreply & Hst & Hd & Hf & Ht).
    destruct Hok as [Hty Hsize].
    rewrite (handleFileUpload_success net seen w file others r d t
               Hty Hsize Hreply Hst Hd Hf Ht).
    destruct (then_translate_outcome net seen t w _
                [ToastSuccess None "Audio file uploaded successfully!";
                 ToastLoading (toasts w) "Transcribing audio...";
                 HttpPost (PostTranscribe (AudioFile file) (file_name file));
                 ToastSuccess (Some (toasts w)) "Transcription complete!"]
                (lastRecordingRef w) (Some file) Ht eq_refl eq_refl)
      as (w' & events & -> & Hout).
    eexists _, _. split; [reflexivity |]. split; [exact Hout |].
    eexists. reflexivity.
  - destruct (handleFileUpload_failure net seen w file others Hok Htext)
      as (msg & _ & ->).
    eexists _, _. split; [reflexivity |]. split.
    + unfold transcription_outcome. simpl. repeat split; auto.
      all: intros H; exfalso; apply H; reflexivity.
    + eexists. reflexivity.
Qed.

(** X7. A selected file of an allowed type and of at most 10 * 1024 * 1024
    bytes (exactly 10 MB included) is accepted: whatever the backend then
    answers, it becomes the uploaded file, a transcription request carrying
    it under its own name is the first request sent, the reference
    recording is left as it was, and the result URL is set to [null]
    without any object URL being revoked. *)
Theorem handleFileUpload_accepts_valid_file
    (net : Backend) (seen : AppState) (file : File) (others : list File)
    (w : World) :
  file_type file ∈ ALLOWED_AUDIO_TYPES →
  (file_size file ≤ 10 * 1024 * 1024)%N →
  let o := App.handleFileUpload net seen (file :: others) w in
  completion_of o = Normal tt ∧
  uploadedFile (state (world_of o)) = Some file ∧
  head (posts (events_of o))
    = Some (PostTranscribe (AudioFile file) (file_name file)) ∧
  lastRecordingRef (world_of o) = lastRecordingRef w ∧
  isTranscribing (state (world_of o)) = false ∧
  clonedAudioUrl (state (world_of o)) = None ∧
  List.existsb touches_urls (events_of o) = false ∧
  live_urls (browser (world_of o)) = live_urls (browser w).
Proof.
  intros Hty Hsize o. subst o.
  destruct (handleFileUpload_outcome net seen w file others (conj Hty Hsize))
    as (w' & events & -> & Hout & rest & Hposts).
  destruct Hout as (Hurl & Hb & Hev & Href & Hup & _ & _ & Hflag & _).
  unfold completion_of, world_of, events_of. simpl.
  rewrite Hposts, Hb. repeat split; assumption.
Qed.

Lemma handleFileUpload_accepts_valid_file_witness :
  file_size ten_mb_mp3 = (10 * 1024 * 1024)%N ∧
  uploadedFile
    (state (world_of (App.handleFileUpload offline initial_state [ten_mb_mp3]
                        initial_world))) = Some ten_mb_mp3 ∧
  head (posts (events_of (App.handleFileUpload offline initial_state [ten_mb_mp3]
                            initial_world)))
    = Some (PostTranscribe (AudioFile ten_mb_mp3) "lesson.mp3").
Proof.
  split; [reflexivity |].
  edestruct (handleFileUpload_accepts_valid_file
               offline initial_state ten_mb_mp3 [] initial_world)
    as (_ & Hup & Hpost & _).
  - apply (bool_decide_eq_true_1 (file_type ten_mb_mp3 ∈ ALLOWED_AUDIO_TYPES)).
    reflexivity.
  - vm_compute. discriminate.
  - split; [exact Hup | exact Hpost].
Defined.

(** ** Synthesis: the reference audio *)

Lemma handleCloneVoice_posts net w audio fname :
  translation (state w) ≠ "" →
  clone_reference w = Some (audio, fname) →
  ∃ w' events,
    fire (App.handleCloneVoice net) w = (Normal tt, w', events) ∧
    posts events = [PostSynthesize (translation (state w)) audio fname].
Proof.
  intros Ht Href.
  destruct (synthesis_ok (synthesize net (translation (state w)) audio fname))
    eqn:Hok.
  - rewrite (handleCloneVoice_success net w audio fname Ht Href Hok).
    eexists _, _. split; [reflexivity |].
    destruct (clonedAudioUrl (state w)); reflexivity.
  - rewrite (handleCloneVoice_failure net w audio fname Ht Href Hok).
    eexists _, _. split; reflexivity.
Qed.

(** X8. With a translation displayed, [handleCloneVoice] sends exactly one
    request, whatever the reply, and the uploaded file has priority as the
    reference audio: when a file is uploaded the request carries that file
    under its own name, even if a recording exists; otherwise it carries
    the last recording under the name 'reference.webm'. *)
Theorem handleCloneVoice_reference_priority (net : Backend) (w : World) :
  translation (state w) ≠ "" →
  let o := fire (App.handleCloneVoice net) w in
  (∀ f, uploadedFile (state w) = Some f →
     posts (events_of o)
       = [PostSynthesize (translation (state w)) (AudioFile f) (file_name f)]) ∧
  (∀ b, uploadedFile (state w) = None → lastRecordingRef w = Some b →
     posts (events_of o)
       = [PostSynthesize (translation (state w)) (AudioBlob b) "reference.webm"]).
Proof.
  intros Ht o. subst o. split.
  - intros f Hup.
    destruct (handleCloneVoice_posts net w (AudioFile f) (file_name f) Ht)
      as (w' & events & -> & Hposts); [| exact Hposts].
    unfold clone_reference. rewrite Hup. reflexivity.
  - intros b Hup Hrec.
    destruct (handleCloneVoice_posts net w (AudioBlob b) "reference.webm" Ht)
      as (w' & events & -> & Hposts); [| exact Hposts].
    unfold clone_reference. rewrite Hup, Hrec. reflexivity.
Qed.

Lemma handleCloneVoice_reference_priority_witness :
  lastRecordingRef uploaded_world = Some hola_blob ∧
  posts (events_of (fire (App.handleCloneVoice hello_backend) uploaded_world))
    = [PostSynthesize "Hola mundo" (AudioFile ten_mb_mp3) "lesson.mp3"] ∧
  posts (events_of (fire (App.handleCloneVoice offline) cloned_world))
    = [PostSynthesize "Hola mundo" (AudioBlob hola_blob) "reference.webm"].
Proof.
  split; [reflexivity |]. split.
  - edestruct (handleCloneVoice_reference_priority hello_backend uploaded_world)
      as [Hfile _]; [discriminate |].
    exact (Hfile ten_mb_mp3 eq_refl).
  - edestruct (handleCloneVoice_reference_priority offline cloned_world)
      as [_ Hrec]; [discriminate |].
    exact (Hrec hola_blob eq_refl eq_refl).
Defined.

(** ** What every sequence of actions preserves *)

Lemma clone_reference_None w :
  clone_reference w = None →
  lastRecordingRef w = None ∧ uploadedFile (state w) = None.
Proof.
  unfold clone_reference.
  destruct (uploadedFile (state w)); [discriminate |].
  destruct (lastRecordingRef w); [discriminate | auto].
Qed.

Lemma Stable_initial : Stable initial_world.
Proof.
  split; simpl.
  - reflexivity.
  - discriminate.
  - intros u Hu. by apply not_elem_of_empty in Hu.
  - intros H. exfalso. apply H. reflexivity.
Qed.

Lemma Stable_transcription w w' events rec up :
  Stable w → transcription_outcome w w' events rec up → Stable w'.
Proof.
  intros [Hidle Hlive Hfresh Htl]
    (Hurl & Hb & _ & _ & _ & _ & Hcl & Hts & Htr & Htext).
  unfold AppRender.isLoading in Hidle.
  apply orb_false_iff in Hidle as [Hidle Hc].
  apply orb_false_iff in Hidle as [_ Ht].
  split.
  - unfold AppRender.isLoading. rewrite Hts, (Htr Ht), Hcl, Hc. reflexivity.
  - rewrite Hurl. discriminate.
  - rewrite Hb. exact Hfresh.
  - exact Htext.
Qed.

Lemma created_after_release (old : option ObjectURL) (b : Browser) :
  next_url b ∈ live_urls (URL.createObjectURL (release old b)).2 ∧
  next_url (URL.createObjectURL (release old b)).2 = S (next_url b) ∧
  ∀ u, u ∈ live_urls (URL.createObjectURL (release old b)).2 →
       u = next_url b ∨ u ∈ live_urls b.
Proof.
  destruct old as [v|]; unfold release, URL.createObjectURL, URL.revokeObjectURL;
    cbn [snd live_urls next_url]; (split; [set_solver | split; [reflexivity |]]);
    intros u Hu; apply elem_of_union in Hu as [Hu | Hu].
  - left. by apply elem_of_singleton in Hu.
  - right. by apply elem_of_difference in Hu as [Hu _].
  - left. by apply elem_of_singleton in Hu.
  - right. exact Hu.
Qed.

Lemma Stable_handleCloneVoice net w :
  Stable w → Stable (world_of (fire (App.handleCloneVoice net) w)).
Proof.
  intros Hst. pose proof Hst as [Hidle Hlive Hfresh Htl].
  unfold AppRender.isLoading in Hidle.
  apply orb_false_iff in Hidle as [Hidle Hc].
  apply orb_false_iff in Hidle as [Hts Ht].
  destruct (String.eqb (translation (state w)) "") eqn:Hempty.
  { apply String.eqb_eq in Hempty. unfold fire.
    rewrite (handleCloneVoice_no_text net _ w Hempty). exact Hst. }
  apply String.eqb_neq in Hempty.
  destruct (clone_reference w) as [[audio fname]|] eqn:Href.
  2:{ destruct (clone_reference_None w Href) as [Hr Hu]. unfold fire.
      rewrite (handleCloneVoice_no_reference net _ w Hempty Hr Hu). exact Hst. }
  destruct (synthesis_ok (synthesize net (translation (state w)) audio fname))
    eqn:Hok.
  - rewrite (handleCloneVoice_success net w audio fname Hempty Href Hok).
    destruct (created_after_release (clonedAudioUrl (state w)) (browser w))
      as (Hin & Hnext & Hsub).
    unfold world_of. cbn [fst snd]. split;
      cbn [after_clone state browser clonedAudioUrl translation transcription].
    + unfold AppRender.isLoading. simpl. rewrite Hts, Ht. reflexivity.
    + intros u Hu. inversion Hu; subst. exact Hin.
    + intros u Hu. rewrite Hnext. destruct (Hsub u Hu) as [-> | Hold].
      * lia.
      * specialize (Hfresh u Hold). lia.
    + exact Htl.
  - rewrite (handleCloneVoice_failure net w audio fname Hempty Href Hok).
    unfold world_of. simpl. split; simpl.
    + unfold AppRender.isLoading. simpl. rewrite Hts, Ht. reflexivity.
    + discriminate.
    + exact Hfresh.
    + exact Htl.
Qed.

Lemma Stable_perform step w : Stable w → Stable (perform step w).
Proof.
  intros Hst. destruct step as [net [audioBlob | files | value |]]; simpl.
  - destruct audioBlob as [blob|]; [| exact Hst].
    unfold fire.
    destruct (handleRecordingComplete_outcome net (state w) w blob)
      as (w' & events & -> & Hout).
    exact (Stable_transcription w w' events _ _ Hst Hout).
  - destruct files as [|file others]; [exact Hst |].
    unfold fire. rewrite handleFileUpload_guards.
    destruct (bool_decide (file_type file ∈ ALLOWED_AUDIO_TYPES)) eqn:Hty;
      simpl; [| exact Hst].
    destruct (MAX_FILE_SIZE <? file_size file)%N eqn:Hsz; [exact Hst |].
    apply bool_decide_eq_true_1 in Hty. apply N.ltb_ge in Hsz.
    destruct (handleFileUpload_outcome net (state w) w file others
                (conj Hty Hsz)) as (w' & events & -> & Hout & _).
    exact (Stable_transcription w w' events _ _ Hst Hout).
  - destruct Hst as [Hidle Hlive Hfresh Htl]. split; simpl.
    + exact Hidle.
    + exact Hlive.
    + exact Hfresh.
    + intros H. exfalso. apply H. reflexivity.
  - apply Stable_handleCloneVoice. exact Hst.
Qed.

Lemma Stable_perform_all steps w :
  Stable w → Stable (perform_all steps w).
Proof.
  unfold perform_all. revert w.
  induction steps as [|step steps IH]; intros w Hw; simpl.
  - exact Hw.
  - apply IH. apply Stable_perform. exact Hw.
Qed.

(** X9. From the first render, after any sequence of user actions
    (finishing recordings, selecting files, changing the language, pressing
    Clone Voice) and whatever the backend answers each time: no stage flag
    is left set, the URL held in [clonedAudioUrl] is a live object URL,
    every live object URL was issued before the next fresh one, and a
    displayed translation always comes with a displayed transcription that
    is not the sentinel. *)
Theorem every_action_sequence_is_stable (steps : list (Backend * Action)) :
  Stable (perform_all steps initial_world).
Proof. apply Stable_perform_all. exact Stable_initial. Qed.

(** ** The Clone Voice button and the unmount cleanup *)

(** X10. While the Voice Cloning card is shown and no cloning is in
    progress, the Clone Voice button is enabled exactly when pressing it
    sends a synthesis request: enabled, [handleCloneVoice] passes both
    guards; disabled, it would stop at a guard without sending anything. *)
Theorem clone_button_enabled_iff_request (net : Backend) (w : World) :
  AppRender.cloneCardShown (state w) = true →
  isCloning (state w) = false →
  AppRender.cloneButtonDisabled (state w) (lastRecordingRef w) = false ↔
  posts (events_of (fire (App.handleCloneVoice net) w)) ≠ [].
Proof.
  intros Hshown Hidle. unfold AppRender.cloneCardShown in Hshown.
  apply truthy_true in Hshown.
  unfold AppRender.cloneButtonDisabled. rewrite Hidle. simpl.
  destruct (clone_reference w) as [[audio fname]|] eqn:Href.
  - destruct (handleCloneVoice_posts net w audio fname Hshown Href)
      as (w' & events & -> & Hposts).
    unfold events_of. simpl. rewrite Hposts. split; [discriminate |].
    intros _. unfold clone_reference in Href.
    destruct (uploadedFile (state w)); [apply andb_false_r |].
    destruct (lastRecordingRef w); [reflexivity | discriminate Href].
  - destruct (clone_reference_None w Href) as [Hr Hu]. unfold fire.
    rewrite (handleCloneVoice_no_reference net _ w Hshown Hr Hu), Hr, Hu.
    simpl. split; [discriminate | intros H; exfalso; apply H; reflexivity].
Qed.

Lemma clone_button_enabled_iff_request_witness :
  AppRender.cloneButtonDisabled (state cloned_world)
    (lastRecordingRef cloned_world) = false ∧
  posts (events_of (fire (App.handleCloneVoice offline) cloned_world)) ≠ [] ∧
  AppRender.cloneButtonDisabled (state no_reference_world)
    (lastRecordingRef no_reference_world) = true.
Proof.
  split; [reflexivity |]. split.
  - apply (clone_button_enabled_iff_request offline cloned_world);
      reflexivity.
  - destruct (AppRender.cloneButtonDisabled (state no_reference_world)
                (lastRecordingRef no_reference_world)) eqn:Hd; [reflexivity |].
    exfalso.
    apply (proj1 (clone_button_enabled_iff_request offline no_reference_world
                    eq_refl eq_refl) Hd).
    reflexivity.
Defined.

(** X11. The cleanup registered by the effect with the empty dependency
    array belongs to the first render, whose [clonedAudioUrl] is [null]:
    when the component unmounts, after any sequence of actions, it revokes
    nothing, so the result URL held at that moment stays live. *)
Theorem unmount_releases_nothing (steps : list (Backend * Action)) :
  let w := perform_all steps initial_world in
  let o := AppRender.unmount w in
  events_of o = [] ∧
  live_urls (browser (world_of o)) = live_urls (browser w) ∧
  ∀ u, clonedAudioUrl (state w) = Some u →
       u ∈ live_urls (browser (world_of o)).
Proof.
  intros w o. subst o. split; [reflexivity |]. split; [reflexivity |].
  intros u Hu.
  exact (stable_result_live w (Stable_perform_all steps initial_world
                                 Stable_initial) u Hu).
Qed.

(** X12. Removing the uploaded file empties the file input and makes the
    last recording the reference again: a following [handleCloneVoice]
    with a translation displayed sends the recording under the name
    'reference.webm', and stops with the NoReferenceAudio message when
    there is no recording. *)
Theorem handleRemoveFile_falls_back_to_recording (net : Backend) (p : Page) :
  translation (state (component p)) ≠ "" →
  let p' := handleRemoveFile p in
  let o := fire (App.handleCloneVoice net) (component p') in
  uploadedFile (state (component p')) = None ∧
  (∀ v, fileInput p = Some v → fileInput p' = Some "") ∧
  (∀ b, lastRecordingRef (component p) = Some b →
     posts (events_of o)
       = [PostSynthesize (translation (state (component p))) (AudioBlob b)
            "reference.webm"]) ∧
  (lastRecordingRef (component p) = None →
     aborts_with ERROR_MESSAGES.SYNTHESIS.NO_REFERENCE (component p') o).
Proof.
  intros Ht p' o. subst o p'. split; [reflexivity |]. split.
  { intros v Hv. unfold handleRemoveFile. simpl. rewrite Hv. reflexivity. }
  split.
  - intros b Hrec.
    destruct (handleCloneVoice_posts net (component (handleRemoveFile p))
                (AudioBlob b) "reference.webm") as (w' & events & -> & Hposts).
    + exact Ht.
    + unfold clone_reference. simpl. unfold world_of. simpl. rewrite Hrec.
      reflexivity.
    + exact Hposts.
  - intros Hrec. unfold fire.
    rewrite (handleCloneVoice_no_reference net _ (component (handleRemoveFile p))).
    + repeat split. eauto.
    + exact Ht.
    + exact Hrec.
    + reflexivity.
Qed.

Lemma handleRemoveFile_falls_back_to_recording_witness :
  uploadedFile (state uploaded_world) = Some ten_mb_mp3 ∧
  posts (events_of
           (fire (App.handleCloneVoice hello_backend)
              (component (handleRemoveFile
                      {| component := uploaded_world;
                         fileInput := Some "C:\fakepath\lesson.mp3" |}))))
    = [PostSynthesize "Hola mundo" (AudioBlob hola_blob) "reference.webm"].
Proof.
  split; [reflexivity |].
  edestruct (handleRemoveFile_falls_back_to_recording hello_backend
               {| component := uploaded_world;
                  fileInput := Some "C:\fakepath\lesson.mp3" |})
    as (_ & _ & Hrec & _); [discriminate |].
  exact (Hrec hola_blob eq_refl).
Defined.

(** ** The recorder: starting, stopping, playing back *)

Lemma startRecording_outcome platform w :
  let o := Recorder.startRecording platform w in
  completion_of o = Normal tt ∧
  events_of o = [] ∧
  Recorder.browser (world_of o) = Recorder.browser w ∧
  Recorder.isLoading (Recorder.state (world_of o)) = false ∧
  Recorder.isPlaying (Recorder.state (world_of o))
    = Recorder.isPlaying (Recorder.state w) ∧
  match Recorder.getUserMedia platform with
  | Thrown e =>
      Recorder.isRecording (Recorder.state (world_of o)) = false ∧
      Recorder.error (Recorder.state (world_of o))
        = Some (start_failure_message (name e)) ∧
      Recorder.recorderRef (world_of o) = Recorder.recorderRef w ∧
      Recorder.audioUrl (Recorder.state (world_of o))
        = Recorder.audioUrl (Recorder.state w)
  | Normal stream =>
      Recorder.recorderRef (world_of o)
        = Some {| Recorder.stream := stream |} ∧
      match Recorder.AudioRecorder_start platform
              {| Recorder.stream := stream |} with
      | Thrown e =>
          Recorder.isRecording (Recorder.state (world_of o)) = false ∧
          Recorder.error (Recorder.state (world_of o))
            = Some (start_failure_message (name e)) ∧
          Recorder.audioUrl (Recorder.state (world_of o))
            = Recorder.audioUrl (Recorder.state w)
      | Normal _ =>
          Recorder.isRecording (Recorder.state (world_of o)) = true ∧
          Recorder.error (Recorder.state (world_of o)) = None ∧
          Recorder.audioUrl (Recorder.state (world_of o)) = None
      end
  end.
Proof.
  unfold Recorder.startRecording, try_catch_finally, mbind, Eff_bind,
    Recorder.await, start_failure_message, completion_of, world_of, events_of.
  simpl.
  destruct (Recorder.getUserMedia platform) as [stream|e]; simpl.
  - destruct (Recorder.AudioRecorder_start platform _) as [[]|e]; simpl.
    + repeat split.
    + destruct (String.eqb (name e) "NotAllowedError");
        [| destruct (String.eqb (name e) "NotFoundError")]; repeat split.
  - destruct (String.eqb (name e) "NotAllowedError");
      [| destruct (String.eqb (name e) "NotFoundError")]; repeat split.
Qed.

(** X13. [startRecording] never throws and never leaves [isLoading] set.
    It ends recording exactly when microphone access is granted and the
    new recorder starts; otherwise [isRecording] is false and the message
    shown depends on the name of the error only: the permission message
    for NotAllowedError, the no-microphone message for NotFoundError, and
    'Failed to start recording' for any other. *)
Theorem startRecording_reports_by_error_name
    (platform : Recorder.Platform) (w : Recorder.World) :
  let o := Recorder.startRecording platform w in
  completion_of o = Normal tt ∧
  Recorder.isLoading (Recorder.state (world_of o)) = false ∧
  (Recorder.isRecording (Recorder.state (world_of o)) = true ↔
     ∃ stream,
       Recorder.getUserMedia platform = Normal stream ∧
       Recorder.AudioRecorder_start platform {| Recorder.stream := stream |}
         = Normal tt) ∧
  (∀ e,
     Recorder.getUserMedia platform = Thrown e ∨
     (∃ stream,
        Recorder.getUserMedia platform = Normal stream ∧
        Recorder.AudioRecorder_start platform {| Recorder.stream := stream |}
          = Thrown e) →
     Recorder.isRecording (Recorder.state (world_of o)) = false ∧
     Recorder.error (Recorder.state (world_of o))
       = Some (start_failure_message (name e))).
Proof.
  intros o. subst o.
  destruct (startRecording_outcome platform w)
    as (Hc & _ & _ & Hload & _ & Hcases).
  split; [exact Hc |]. split; [exact Hload |].
  destruct (Recorder.getUserMedia platform) as [stream|e0] eqn:Hmedia.
  - destruct Hcases as [_ Hcases].
    destruct (Recorder.AudioRecorder_start platform _) as [[]|e1] eqn:Hstart.
    + destruct Hcases as (Hrec & _). split.
      * split; [intros _; eauto | intros _; exact Hrec].
      * intros e [He | (s & Hs & He)]; [discriminate He |].
        inversion Hs; subst s. rewrite Hstart in He. discriminate He.
    + destruct Hcases as (Hrec & Herr & _). split.
      * split; [rewrite Hrec; discriminate |].
        intros (s & Hs & He). inversion Hs; subst s.
        rewrite Hstart in He. discriminate He.
      * intros e [He | (s & Hs & He)]; [discriminate He |].
        inversion Hs; subst s. rewrite Hstart in He. inversion He; subst e.
        auto.
  - destruct Hcases as (Hrec & Herr & _). split.
    + split; [rewrite Hrec; discriminate |].
      intros (s & Hs & _). discriminate Hs.
    + intros e [He | (s & Hs & _)]; [| discriminate Hs].
      inversion He; subst e. auto.
Qed.

Lemma startRecording_reports_by_error_name_witness :
  Recorder.error
    (Recorder.state (world_of (Recorder.startRecording denied_microphone
                                 Recorder.initial_world)))
    = Some "Microphone access was denied. Please allow microphone access to record audio." ∧
  Recorder.isRecording
    (Recorder.state (world_of (Recorder.startRecording denied_microphone
                                 Recorder.initial_world))) = false.
Proof.
  destruct (startRecording_reports_by_error_name denied_microphone
              Recorder.initial_world) as (_ & _ & _ & Herr).
  destruct (Herr permission_denied (or_introl eq_refl)) as [Hrec Hmsg].
  split; [exact Hmsg | exact Hrec].
Defined.

Lemma stopRecording_success platform w recorder audioBlob :
  Recorder.recorderRef w = Some recorder →
  Recorder.AudioRecorder_stop platform recorder = Normal audioBlob →
  Recorder.stopRecording platform w =
    (Normal tt,
     {| Recorder.state :=
          {| Recorder.isRecording := false;
             Recorder.isPlaying := Recorder.isPlaying (Recorder.state w);
             Recorder.isLoading := false;
             Recorder.audioUrl := Some (next_url (Recorder.browser w));
             Recorder.error := None |};
        Recorder.recorderRef := Some recorder;
        Recorder.browser := (URL.createObjectURL (Recorder.browser w)).2 |},
     [Recorder.CreatedObjectURL (next_url (Recorder.browser w));
      Recorder.OnRecordingComplete audioBlob]).
Proof.
  intros Href Hstop.
  unfold Recorder.stopRecording, mbind, Eff_bind, reads. rewrite Href.
  unfold try_catch_finally, Recorder.await. simpl. rewrite Hstop. simpl.
  rewrite Href. reflexivity.
Qed.

Lemma record_cycle_success platform w stream audioBlob :
  Recorder.getUserMedia platform = Normal stream →
  Recorder.AudioRecorder_start platform {| Recorder.stream := stream |}
    = Normal tt →
  Recorder.AudioRecorder_stop platform {| Recorder.stream := stream |}
    = Normal audioBlob →
  Recorder.stopRecording platform (world_of (Recorder.startRecording platform w))
  = (Normal tt,
     {| Recorder.state :=
          {| Recorder.isRecording := false;
             Recorder.isPlaying := Recorder.isPlaying (Recorder.state w);
             Recorder.isLoading := false;
             Recorder.audioUrl := Some (next_url (Recorder.browser w));
             Recorder.error := None |};
        Recorder.recorderRef := Some {| Recorder.stream := stream |};
        Recorder.browser := (URL.createObjectURL (Recorder.browser w)).2 |},
     [Recorder.CreatedObjectURL (next_url (Recorder.browser w));
      Recorder.OnRecordingComplete audioBlob]).
Proof.
  intros Hmedia Hstart Hstop.
  pose proof (startRecording_outcome platform w) as Hout. cbv zeta in Hout.
  destruct Hout as (_ & _ & Hb & _ & Hplay & Hcases).
  rewrite Hmedia in Hcases. destruct Hcases as [Href _].
  rewrite (stopRecording_success platform _ _ audioBlob Href Hstop).
  rewrite Hb, Hplay. reflexivity.
Qed.

(** X14. When the microphone is granted and the recorder starts and then
    stops with a blob, a start followed by a stop ends with the component
    idle and without error, creates exactly one object URL, the fresh one,
    stores it as [audioUrl], and hands the blob to [onRecordingComplete]
    exactly once, after the URL is created. *)
Theorem start_then_stop_delivers_recording
    (platform : Recorder.Platform) (w : Recorder.World)
    (stream : Recorder.MediaStream) (audioBlob : Blob) :
  Recorder.getUserMedia platform = Normal stream →
  Recorder.AudioRecorder_start platform {| Recorder.stream := stream |}
    = Normal tt →
  Recorder.AudioRecorder_stop platform {| Recorder.stream := stream |}
    = Normal audioBlob →
  let o := Recorder.stopRecording platform
             (world_of (Recorder.startRecording platform w)) in
  completion_of o = Normal tt ∧
  events_of o =
    [Recorder.CreatedObjectURL (next_url (Recorder.browser w));
     Recorder.OnRecordingComplete audioBlob] ∧
  Recorder.isRecording (Recorder.state (world_of o)) = false ∧
  Recorder.isLoading (Recorder.state (world_of o)) = false ∧
  Recorder.error (Recorder.state (world_of o)) = None ∧
  Recorder.audioUrl (Recorder.state (world_of o))
    = Some (next_url (Recorder.browser w)) ∧
  next_url (Recorder.browser w) ∈ live_urls (Recorder.browser (world_of o)).
Proof.
  intros Hmedia Hstart Hstop o. subst o.
  rewrite (record_cycle_success platform w stream audioBlob Hmedia Hstart Hstop).
  unfold completion_of, world_of, events_of. cbn [fst snd].
  repeat split. unfold URL.createObjectURL. cbn [snd Recorder.browser live_urls].
  apply elem_of_union_l, elem_of_singleton. reflexivity.
Qed.

Lemma start_then_stop_delivers_recording_witness :
  events_of (Recorder.stopRecording working_microphone
               (world_of (Recorder.startRecording working_microphone
                            Recorder.initial_world)))
    = [Recorder.CreatedObjectURL 0; Recorder.OnRecordingComplete hola_blob].
Proof.
  edestruct (start_then_stop_delivers_recording working_microphone
               Recorder.initial_world 0 hola_blob) as (_ & Hev & _);
    [reflexivity | reflexivity | reflexivity |].
  exact Hev.
Defined.

Lemma record_cycle_fresh platform w stream audioBlob :
  Recorder.getUserMedia platform = Normal stream →
  Recorder.AudioRecorder_start platform {| Recorder.stream := stream |}
    = Normal tt →
  Recorder.AudioRecorder_stop platform {| Recorder.stream := stream |}
    = Normal audioBlob →
  recorder_fresh w →
  recorder_fresh (record_cycle platform w) ∧
  size (live_urls (Recorder.browser (record_cycle platform w)))
    = S (size (live_urls (Recorder.browser w))) ∧
  live_urls (Recorder.browser w)
    ⊆ live_urls (Recorder.browser (record_cycle platform w)) ∧
  Recorder.audioUrl (Recorder.state (record_cycle platform w))
    = Some (next_url (Recorder.browser w)) ∧
  next_url (Recorder.browser (record_cycle platform w))
    = S (next_url (Recorder.browser w)).
Proof.
  intros Hmedia Hstart Hstop Hfresh. unfold record_cycle.
  rewrite (record_cycle_success platform w stream audioBlob Hmedia Hstart Hstop).
  unfold world_of, recorder_fresh, URL.createObjectURL in *.
  cbn [fst snd Recorder.browser Recorder.state Recorder.audioUrl live_urls next_url].
  assert (Hnew : next_url (Recorder.browser w) ∉ live_urls (Recorder.browser w)).
  { intros Hin. specialize (Hfresh _ Hin). lia. }
  repeat split.
  - intros u Hu. apply elem_of_union in Hu as [Hu | Hu].
    + apply elem_of_singleton in Hu. subst u. lia.
    + specialize (Hfresh u Hu). lia.
  - rewrite size_union by set_solver. rewrite size_singleton. reflexivity.
  - apply union_subseteq_r.
Qed.

(** X15. The recorder never releases an object URL. With a microphone that
    is granted and a recorder that starts and stops, [n] recordings in a
    row leave [n] more object URLs live than before, all the earlier ones
    included, while [audioUrl] refers to the last one only. *)
Theorem recorder_cycles_accumulate_urls
    (platform : Recorder.Platform) (w : Recorder.World)
    (stream : Recorder.MediaStream) (audioBlob : Blob) (n : nat) :
  Recorder.getUserMedia platform = Normal stream →
  Recorder.AudioRecorder_start platform {| Recorder.stream := stream |}
    = Normal tt →
  Recorder.AudioRecorder_stop platform {| Recorder.stream := stream |}
    = Normal audioBlob →
  recorder_fresh w →
  let w' := Nat.iter n (record_cycle platform) w in
  size (live_urls (Recorder.browser w'))
    = (size (live_urls (Recorder.browser w)) + n)%nat ∧
  live_urls (Recorder.browser w) ⊆ live_urls (Recorder.browser w') ∧
  next_url (Recorder.browser w') = (next_url (Recorder.browser w) + n)%nat ∧
  (0 < n →
   Recorder.audioUrl (Recorder.state w')
     = Some (next_url (Recorder.browser w) + n - 1))%nat.
Proof.
  intros Hmedia Hstart Hstop Hfresh. cbv zeta.
  induction n as [|n IH].
  - simpl. split; [lia |]. split; [reflexivity |]. split; [lia |].
    intros H. lia.
  - assert (Hfr : recorder_fresh (Nat.iter n (record_cycle platform) w)).
    { clear IH. induction n as [|n IHn]; [exact Hfresh |].
      simpl. apply (record_cycle_fresh platform _ stream audioBlob); auto. }
    destruct IH as (Hsize & Hsub & Hnext & _).
    destruct (record_cycle_fresh platform _ stream audioBlob
                Hmedia Hstart Hstop Hfr) as (_ & Hs & Hsb & Hurl & Hnx).
    simpl. rewrite Hs, Hsize, Hurl, Hnx, Hnext. repeat split.
    + lia.
    + etransitivity; [exact Hsub | exact Hsb].
    + lia.
    + intros _. f_equal. lia.
Qed.

Lemma recorder_cycles_accumulate_urls_witness :
  size (live_urls (Recorder.browser
                     (Nat.iter 3 (record_cycle working_microphone)
                        Recorder.initial_world))) = 3 ∧
  Recorder.audioUrl
    (Recorder.state (Nat.iter 3 (record_cycle working_microphone)
                       Recorder.initial_world)) = Some 2.
Proof.
  edestruct (recorder_cycles_accumulate_urls working_microphone
               Recorder.initial_world 0 hola_blob 3)
    as (Hsize & _ & _ & Hurl).
  - reflexivity.
  - reflexivity.
  - reflexivity.
  - intros u Hu. by apply not_elem_of_empty in Hu.
  - split; [exact Hsize |]. apply Hurl. lia.
Defined.

(** X16. In the recorder, a playback that fails is reported with 'Failed
    to play audio. Please try again.', but what [isPlaying] becomes depends
    on how [play()] fails: when [play()] throws, [isPlaying] stays false;
    when the promise of [play()] is rejected, [isPlaying] has already been
    set and stays set, so the record button remains disabled. *)
Theorem togglePlayback_failed_play
    (w : Recorder.World) (audio : RecorderPlayback.AudioElement) (e : JsError) :
  Recorder.isPlaying (Recorder.state w) = false →
  let o := RecorderPlayback.togglePlayback (Some audio) w in
  (RecorderPlayback.play audio = RecorderPlayback.PlayThrows e →
     completion_of o = Normal tt ∧
     Recorder.error (Recorder.state (world_of o))
       = Some "Failed to play audio. Please try again." ∧
     Recorder.isPlaying (Recorder.state (world_of o)) = false) ∧
  (RecorderPlayback.play audio = RecorderPlayback.PlayRejects e →
     completion_of o = Normal tt ∧
     Recorder.error (Recorder.state (world_of o))
       = Some "Failed to play audio. Please try again." ∧
     Recorder.isPlaying (Recorder.state (world_of o)) = true ∧
     RecorderPlayback.recordButtonDisabled (Recorder.state (world_of o)) = true).
Proof.
  intros Hidle o. subst o.
  unfold RecorderPlayback.togglePlayback, mbind, Eff_bind, reads.
  rewrite Hidle. split; intros Hplay;
    unfold try_catch_finally, mbind, Eff_bind, mret, Eff_ret, throw;
    rewrite !Hplay; unfold completion_of, world_of; simpl.
  - repeat split. exact Hidle.
  - repeat split.
Qed.

Lemma togglePlayback_failed_play_witness :
  Recorder.isPlaying (Recorder.state recorded_world) = false ∧
  Recorder.isPlaying
    (Recorder.state (world_of (RecorderPlayback.togglePlayback
                                 (Some broken_audio) recorded_world))) = true ∧
  Recorder.error
    (Recorder.state (world_of (RecorderPlayback.togglePlayback
                                 (Some broken_audio) recorded_world)))
    = Some "Failed to play audio. Please try again.".
Proof.
  split; [reflexivity |].
  edestruct (togglePlayback_failed_play recorded_world broken_audio)
    as [_ Hrej]; [reflexivity |].
  destruct (Hrej eq_refl) as (_ & Herr & Hplay & _).
  split; [exact Hplay | exact Herr].
Defined.

(** ** The player: volume slider and mute button together *)

Lemma volume_in_range_iff (v : Q) :
  AudioPlayer.volume_in_range v = true ↔ (0 <= v <= 1)%Q.
Proof.
  unfold AudioPlayer.volume_in_range.
  rewrite andb_true_iff, !Qle_bool_iff. reflexivity.
Qed.

(** X17. With the audio element present, moving the volume slider to a
    value [v] from 0 to 1 sets the player's and the element's volume to [v]
    and marks the player muted exactly when [v] is 0, without touching the
    element's [muted] flag. A mute toggle right after leaves the element's
    volume at [v] and shows 0 (muted) when [v] is not 0, but 1 (unmuted)
    when [v] is 0: after sliding to 0 and pressing the button, the player
    shows full volume while the element is at volume 0. For a value outside
    that range the handler throws the element's IndexSizeError and stores
    nothing. *)
Theorem volume_slider_then_mute_toggle
    (w : AudioPlayer.World) (el : AudioPlayer.AudioElement) (v : Q) :
  AudioPlayer.audioRef w = Some el →
  let o := AudioPlayer.handleVolumeChange v w in
  let w1 := o.2 in
  let w2 := AudioPlayer.handleMuteToggle w1 in
  ((0 <= v <= 1)%Q →
     o.1 = Normal tt ∧
     AudioPlayer.volume (AudioPlayer.state w1) = v ∧
     (AudioPlayer.isMuted (AudioPlayer.state w1) = true ↔ (v == 0)%Q) ∧
     AudioPlayer.audioRef w1
       = Some {| AudioPlayer.el_volume := v;
                 AudioPlayer.el_muted := AudioPlayer.el_muted el;
                 AudioPlayer.el_currentTime := AudioPlayer.el_currentTime el |} ∧
     AudioPlayer.audioRef w2
       = Some {| AudioPlayer.el_volume := v;
                 AudioPlayer.el_muted := negb (Qeq_bool v 0);
                 AudioPlayer.el_currentTime := AudioPlayer.el_currentTime el |} ∧
     ((v == 0)%Q →
        AudioPlayer.isMuted (AudioPlayer.state w2) = false ∧
        AudioPlayer.volume (AudioPlayer.state w2) = 1%Q) ∧
     (¬ (v == 0)%Q →
        AudioPlayer.isMuted (AudioPlayer.state w2) = true ∧
        AudioPlayer.volume (AudioPlayer.state w2) = 0%Q)) ∧
  (¬ (0 <= v <= 1)%Q →
     o = (Thrown AudioPlayer.IndexSizeError, w)).
Proof.
  intros Href o w1 w2. subst w2 w1 o.
  unfold AudioPlayer.handleVolumeChange. rewrite Href.
  destruct (AudioPlayer.volume_in_range v) eqn:Hrange.
  - split; [| intros Hout; exfalso; apply Hout; apply volume_in_range_iff;
               exact Hrange].
    intros _. unfold AudioPlayer.handleMuteToggle. simpl.
    split; [reflexivity |]. split; [reflexivity |].
    split; [apply Qeq_bool_iff |].
    split; [reflexivity |]. split; [reflexivity |].
    destruct (Qeq_bool v 0) eqn:Hz; simpl; split.
    + intros _. split; reflexivity.
    + intros Hne. exfalso. apply Hne. apply Qeq_bool_iff. exact Hz.
    + intros Heq. apply Qeq_bool_iff in Heq. rewrite Heq in Hz. discriminate Hz.
    + intros _. split; reflexivity.
  - split; [| intros _; reflexivity].
    intros Hin. apply volume_in_range_iff in Hin. rewrite Hin in Hrange.
    discriminate Hrange.
Qed.

Lemma volume_slider_then_mute_toggle_witness :
  AudioPlayer.volume
    (AudioPlayer.state
       (AudioPlayer.handleMuteToggle
          (AudioPlayer.handleVolumeChange 0 AudioPlayer.initial_world).2)) = 1%Q ∧
  AudioPlayer.audioRef
    (AudioPlayer.handleMuteToggle
       (AudioPlayer.handleVolumeChange 0 AudioPlayer.initial_world).2)
    = Some {| AudioPlayer.el_volume := 0; AudioPlayer.el_muted := false;
              AudioPlayer.el_currentTime := 0 |} ∧
  AudioPlayer.handleVolumeChange (3 # 2) AudioPlayer.initial_world
    = (Thrown AudioPlayer.IndexSizeError, AudioPlayer.initial_world).
Proof.
  edestruct (volume_slider_then_mute_toggle AudioPlayer.initial_world
               {| AudioPlayer.el_volume := 1; AudioPlayer.el_muted := false;
                  AudioPlayer.el_currentTime := 0 |} 0)
    as (Hin & _); [reflexivity |].
  destruct Hin as (_ & _ & _ & _ & Hel & Hzero & _); [split; discriminate |].
  destruct (Hzero (Qeq_refl 0)) as [_ Hvol].
  edestruct (volume_slider_then_mute_toggle AudioPlayer.initial_world
               {| AudioPlayer.el_volume := 1; AudioPlayer.el_muted := false;
                  AudioPlayer.el_currentTime := 0 |} (3 # 2))
    as (_ & Hout); [reflexivity |].
  split; [exact Hvol |]. split; [exact Hel |].
  apply Hout. intros [_ Hle]. apply Hle. reflexivity.
Defined.

(** ** The player: object URLs of blob sources *)

Lemma player_owns_effect base src w :
  live_urls (AudioPlayerSource.browser w) = base →
  AudioPlayerSource.fresh w →
  player_owns base (AudioPlayerSource.effect src w).
Proof.
  intros Hlive Hfresh. unfold player_owns, AudioPlayerSource.fresh in *.
  destruct src as [b | value]; unfold AudioPlayerSource.effect,
    URL.createObjectURL; cbn [fst snd AudioPlayerSource.browser
      AudioPlayerSource.audioUrl live_urls next_url].
  - rewrite Hlive in *. repeat split.
    + apply (comm_L (∪)).
    + intros u Hu Hin. inversion Hu; subst u. specialize (Hfresh _ Hin). lia.
    + intros u Hu. inversion Hu. reflexivity.
    + intros u Hu. apply elem_of_union in Hu as [Hu | Hu].
      * apply elem_of_singleton in Hu. subst u. lia.
      * specialize (Hfresh u Hu). lia.
  - rewrite Hlive in *. repeat split.
    + symmetry. apply (right_id_L ∅ (∪)).
    + discriminate.
    + destruct value; discriminate.
    + exact Hfresh.
Qed.

Lemma player_owns_cleanup base st :
  player_owns base st →
  live_urls (AudioPlayerSource.browser
               (AudioPlayerSource.cleanup st.2 st.1)) = base ∧
  AudioPlayerSource.fresh (AudioPlayerSource.cleanup st.2 st.1).
Proof.
  destruct st as [w [u|]]; unfold player_owns, AudioPlayerSource.cleanup,
    AudioPlayerSource.fresh, URL.revokeObjectURL;
    cbn [fst snd AudioPlayerSource.browser live_urls next_url];
    intros (Hlive & Hnew & _ & Hfresh).
  - specialize (Hnew u eq_refl). split.
    + rewrite Hlive. set_solver.
    + intros v Hv. apply elem_of_difference in Hv as [Hv _]. exact (Hfresh v Hv).
  - split; [| exact Hfresh]. rewrite Hlive. apply (right_id_L ∅ (∪)).
Qed.

Lemma player_owns_rerender base src st :
  player_owns base st → player_owns base (AudioPlayerSource.rerender src st).
Proof.
  intros Hst. destruct (player_owns_cleanup base st Hst) as [Hlive Hfresh].
  unfold AudioPlayerSource.rerender.
  exact (player_owns_effect base src _ Hlive Hfresh).
Qed.

Lemma player_owns_mounted src later w :
  AudioPlayerSource.fresh w →
  player_owns (live_urls (AudioPlayerSource.browser w))
    (AudioPlayerSource.mounted src later w).
Proof.
  intros Hfresh. unfold AudioPlayerSource.mounted.
  assert (H0 : player_owns (live_urls (AudioPlayerSource.browser w))
                 (AudioPlayerSource.effect src w))
    by (apply player_owns_effect; [reflexivity | exact Hfresh]).
  revert H0. generalize (AudioPlayerSource.effect src w).
  induction later as [|s later IH]; intros st Hst; simpl.
  - exact Hst.
  - apply IH. apply player_owns_rerender. exact Hst.
Qed.

(** X18. A player mounted with any source and re-rendered with any
    sequence of sources keeps at most one object URL of its own live: the
    one created for the current source when that is a [Blob], which is
    then the URL the player plays; for a source that is not a [Blob] it
    creates none. Unmounting it leaves exactly the object URLs that were
    live before it was mounted. *)
Theorem player_releases_what_it_creates
    (src : AudioPlayerSource.Source) (later : list AudioPlayerSource.Source)
    (w : AudioPlayerSource.World) :
  AudioPlayerSource.fresh w →
  let st := AudioPlayerSource.mounted src later w in
  (size (live_urls (AudioPlayerSource.browser st.1))
     ≤ S (size (live_urls (AudioPlayerSource.browser w))))%nat ∧
  (∀ u, AudioPlayerSource.audioUrl st.1
          = Some (AudioPlayerSource.OwnObjectURL u) →
        u ∈ live_urls (AudioPlayerSource.browser st.1) ∧
        u ∉ live_urls (AudioPlayerSource.browser w)) ∧
  (∀ value, last (src :: later) = Some (AudioPlayerSource.OtherSource value) →
        live_urls (AudioPlayerSource.browser st.1)
          = live_urls (AudioPlayerSource.browser w)) ∧
  live_urls (AudioPlayerSource.browser
               (AudioPlayerSource.unmounted src later w))
    = live_urls (AudioPlayerSource.browser w).
Proof.
  intros Hfresh st.
  pose proof (player_owns_mounted src later w Hfresh) as Hown. fold st in Hown.
  pose proof Hown as (Hlive & Hnew & Hurl & _).
  split; [| split; [| split]].
  - rewrite Hlive. destruct st.2 as [u|].
    + rewrite size_union by (specialize (Hnew u eq_refl); set_solver).
      rewrite size_singleton. lia.
    + rewrite (right_id_L ∅ (∪)). lia.
  - intros u Hu. specialize (Hurl u Hu). split.
    + rewrite Hlive, Hurl. set_solver.
    + exact (Hnew u Hurl).
  - intros value Hlast. rewrite Hlive.
    assert (Hnone : st.2 = None).
    { subst st. unfold AudioPlayerSource.mounted.
      destruct later as [|s later _] using rev_ind.
      - simpl in Hlast. inversion Hlast; subst src. reflexivity.
      - rewrite foldl_app. simpl.
        change (src :: later ++ [s]) with ((src :: later) ++ [s]) in Hlast.
        rewrite last_snoc in Hlast. inversion Hlast; subst s. reflexivity. }
    rewrite Hnone. apply (right_id_L ∅ (∪)).
  - unfold AudioPlayerSource.unmounted. cbv zeta. fold st.
    exact (proj1 (player_owns_cleanup _ st Hown)).
Qed.

Lemma player_releases_what_it_creates_witness :
  AudioPlayerSource.audioUrl
    (AudioPlayerSource.mounted (AudioPlayerSource.BlobSource hola_blob)
       [AudioPlayerSource.BlobSource speech_blob] player_before_mount).1
    = Some (AudioPlayerSource.OwnObjectURL 6) ∧
  live_urls (AudioPlayerSource.browser
               (AudioPlayerSource.unmounted
                  (AudioPlayerSource.BlobSource hola_blob)
                  [AudioPlayerSource.BlobSource speech_blob]
                  player_before_mount)) = {[ 4 ]}.
Proof.
  split; [reflexivity |].
  edestruct (player_releases_what_it_creates
               (AudioPlayerSource.BlobSource hola_blob)
               [AudioPlayerSource.BlobSource speech_blob] player_before_mount)
    as (_ & _ & _ & Hafter).
  - intros u Hu. unfold player_before_mount in *.
    cbn [AudioPlayerSource.browser live_urls next_url] in *.
    apply elem_of_singleton in Hu. subst u. lia.
  - exact Hafter.
Defined.

(** ** The home page *)

Lemma Home_handleRecordingComplete_step blob w :
  Home.fresh w →
  let w' := world_of (Home.handleRecordingComplete blob w) in
  Home.fresh w' ∧
  size (live_urls (Home.browser w')) = S (size (live_urls (Home.browser w))) ∧
  live_urls (Home.browser w) ⊆ live_urls (Home.browser w') ∧
  next_url (Home.browser w') = S (next_url (Home.browser w)) ∧
  Home.recordedAudio w' = Some (next_url (Home.browser w)).
Proof.
  intros Hfresh. unfold Home.fresh in *. cbv zeta.
  unfold Home.handleRecordingComplete, world_of, mbind, Eff_bind, modify, emit,
    URL.createObjectURL.
  cbn [fst snd Home.browser Home.recordedAudio live_urls next_url].
  assert (Hnew : next_url (Home.browser w) ∉ live_urls (Home.browser w)).
  { intros Hin. specialize (Hfresh _ Hin). lia. }
  split; [| split; [| split; [| split]]].
  - intros u Hu. apply elem_of_union in Hu as [Hu | Hu].
    + apply elem_of_singleton in Hu. subst u. lia.
    + specialize (Hfresh u Hu). lia.
  - rewrite size_union; [rewrite size_singleton; reflexivity |].
    intros u Hu Hin. apply elem_of_singleton in Hu. subst u. exact (Hnew Hin).
  - apply union_subseteq_r.
  - reflexivity.
  - reflexivity.
Qed.

(** X19. The home page never releases an object URL: handling the
    recordings of a visit one after the other leaves one more live object
    URL per recording, all the earlier ones included, while
    [recordedAudio] refers to the URL of the last recording only. *)
Theorem home_recordings_accumulate_urls (blobs : list Blob) (w : Home.World) :
  Home.fresh w →
  let w' := Home.record_all blobs w in
  size (live_urls (Home.browser w'))
    = (size (live_urls (Home.browser w)) + length blobs)%nat ∧
  live_urls (Home.browser w) ⊆ live_urls (Home.browser w') ∧
  (blobs ≠ [] →
   Home.recordedAudio w'
     = Some (next_url (Home.browser w) + length blobs - 1)%nat).
Proof.
  intros Hfresh. cbv zeta. unfold Home.record_all.
  assert (H : ∀ w0, Home.fresh w0 →
            let w' := foldl (λ w blob, world_of (Home.handleRecordingComplete blob w))
                        w0 blobs in
            Home.fresh w' ∧
            size (live_urls (Home.browser w'))
              = (size (live_urls (Home.browser w0)) + length blobs)%nat ∧
            live_urls (Home.browser w0) ⊆ live_urls (Home.browser w') ∧
            next_url (Home.browser w')
              = (next_url (Home.browser w0) + length blobs)%nat ∧
            (blobs ≠ [] →
             Home.recordedAudio w'
               = Some (next_url (Home.browser w0) + length blobs - 1)%nat)).
  { induction blobs as [|blob blobs IH] using rev_ind; intros w0 Hw0; cbv zeta.
    - simpl. split; [exact Hw0 |]. split; [lia |]. split; [reflexivity |].
      split; [lia |]. intros Hne. exfalso. apply Hne. reflexivity.
    - rewrite foldl_app, length_app. cbn [foldl length].
      destruct (IH w0 Hw0) as (Hfr & Hsize & Hsub & Hnext & _).
      destruct (Home_handleRecordingComplete_step blob _ Hfr)
        as (Hfr' & Hs & Hsb & Hnx & Hurl).
      split; [exact Hfr' |]. rewrite Hs, Hsize, Hnx, Hurl, Hnext.
      split; [lia |]. split; [etransitivity; eassumption |].
      split; [lia |]. intros _. f_equal. lia. }
  destruct (H w Hfresh) as (_ & Hsize & Hsub & _ & Hurl). auto.
Qed.

Lemma home_recordings_accumulate_urls_witness :
  size (live_urls (Home.browser
                     (Home.record_all [hola_blob; speech_blob]
                        Home.initial_world))) = 2 ∧
  Home.recordedAudio (Home.record_all [hola_blob; speech_blob] Home.initial_world)
    = Some 1.
Proof.
  edestruct (home_recordings_accumulate_urls [hola_blob; speech_blob]
               Home.initial_world) as (Hsize & _ & Hurl).
  - intros u Hu. by apply not_elem_of_empty in Hu.
  - split; [exact Hsize |]. apply Hurl. discriminate.
Defined.

(** ** The requests of one recording *)

Lemma posts_app (l1 l2 : list Event) : posts (l1 ++ l2) = posts l1 ++ posts l2.
Proof. unfold posts. apply omap_app. Qed.

(** X20. Handling a recording sends the transcription request first and at
    most one more request, whatever the backend answers: a translation
    request, sent only when the transcription succeeded with a text other
    than the sentinel, and carrying exactly that text and the target
    language of the render. No synthesis request is ever sent. *)
Theorem handleRecordingComplete_requests
    (net : Backend) (seen : AppState) (w : World) (blob : Blob) :
  let o := App.handleRecordingComplete net seen (Some blob) w in
  posts (events_of o) = [PostTranscribe (AudioBlob blob) "recording.webm"] ∨
  ∃ t,
    recording_text (transcribe net (AudioBlob blob) "recording.webm") = Some t ∧
    t ≠ NO_TRANSCRIPTION ∧
    posts (events_of o) =
      [PostTranscribe (AudioBlob blob) "recording.webm";
       PostTranslate t (targetLang seen)].
Proof.
  intros o. subst o.
  destruct (recording_text (transcribe net (AudioBlob blob) "recording.webm"))
    as [t|] eqn:Htext.
  - destruct (recording_text_Some _ _ Htext) as (r & d & Hreply & Hd & Hf & Ht).
    rewrite (handleRecordingComplete_success net seen w blob r d t Hreply Hd Hf Ht).
    unfold then_translate.
    destruct (String.eqb t NO_TRANSCRIPTION) eqn:Hs; [left; reflexivity |].
    apply String.eqb_neq in Hs.
    destruct (translateText_outcome net seen t
                (transcribed w t (Some blob) (uploadedFile (state w))))
      as [[msg ->] | (_ & tl & events & -> & Hposts & _)].
    + left. reflexivity.
    + right. exists t. split; [reflexivity |]. split; [exact Hs |].
      unfold events_of. cbn [fst snd]. rewrite posts_app, Hposts. reflexivity.
  - destruct (handleRecordingComplete_failure net seen w blob Htext)
      as (msg & _ & ->).
    left. reflexivity.
Qed.

(** ** Synthesis after a result was dropped *)

(** C1. The claim fails on the code once a result URL was dropped without
    being revoked (by a new recording, or by a failed synthesis). After a
    recording, a synthesis and another recording, the URL [blob:0] of the
    first result is live but no longer held: the next successful synthesis
    revokes nothing and leaves two result URLs live. After a recording, a
    synthesis, a failed synthesis and a synthesis, [blob:1] is held and
    [blob:0] is live as well: the next successful synthesis revokes
    [blob:1] exactly once, before creating [blob:2], and still leaves two
    result URLs live. *)
Theorem handleCloneVoice_after_dropped_result :
  let wa := perform_all record_clone_record initial_world in
  let oa := fire (App.handleCloneVoice hello_backend) wa in
  let wb := perform_all clone_fail_clone initial_world in
  let ob := fire (App.handleCloneVoice hello_backend) wb in
  (live_urls (browser wa) = {[ 0 ]} ∧
   clonedAudioUrl (state wa) = None ∧
   events_of oa =
     [ToastLoading 5 "Cloning voice...";
      HttpPost (PostSynthesize "Hola mundo" (AudioBlob speech_blob)
                  "reference.webm");
      CreatedObjectURL 1;
      ToastSuccess (Some 5) "Voice cloning complete!"] ∧
   revocations 0 (events_of oa) = 0 ∧
   clonedAudioUrl (state (world_of oa)) = Some 1 ∧
   live_urls (browser (world_of oa)) = {[ 0; 1 ]} ∧
   size (live_urls (browser (world_of oa))) = 2) ∧
  (live_urls (browser wb) = {[ 0; 1 ]} ∧
   clonedAudioUrl (state wb) = Some 1 ∧
   events_of ob =
     [ToastLoading 5 "Cloning voice...";
      HttpPost (PostSynthesize "Hola mundo" (AudioBlob hola_blob)
                  "reference.webm");
      RevokedObjectURL 1;
      CreatedObjectURL 2;
      ToastSuccess (Some 5) "Voice cloning complete!"] ∧
   revocations 1 (events_of ob) = 1 ∧
   revocations 0 (events_of ob) = 0 ∧
   clonedAudioUrl (state (world_of ob)) = Some 2 ∧
   live_urls (browser (world_of ob)) = {[ 0; 2 ]} ∧
   size (live_urls (browser (world_of ob))) = 2).
Proof. vm_compute. repeat split. Qed.
